(** * The IMAP node of n8n-nodes-imap: execution entry point and credential test

    A shallow embedding of [nodes/Imap/Imap.node.ts]: the [execute] method of
    the [Imap] node class and the [testImapCredentials] hook.

    The code is glue around three externals: the host's execution context
    ([getNodeParameter], [getInputData], the logger), the wrapped IMAP client
    ([createImapClient], [connect], [logout]) and the per-operation handlers
    ([executeImapAction]).  They are the fields of an environment record; the
    functions of the node are written in a small monad that threads the
    state of the externals, collects the calls made in a trace and propagates
    thrown errors, with a [try_catch] combinator for the [try]/[catch] blocks
    of the source.

    What the model takes from the externals:
    - a thrown value is an error object (the host, the client library and
      the handlers throw [Error] instances), so that reading [error.message]
      in a [catch] block succeeds; whether [JSON.stringify] returns for it
      is the error's own;
    - the items' [json] members are plain objects, whose prototype is
      [Object.prototype];
    - the logger and the two methods of the error-interception shim return;
    - [client.logout()] is an asynchronous method: the call returns a promise
      at once and cannot throw, and the node never awaits the promise;
    - the input items do not change during an execution. *)

From Stdlib Require Import String Ascii List ZArith Bool Arith Lia.
Import ListNotations.
Local Open Scope string_scope.
Local Open Scope list_scope.

(** String concatenation, written apart from the append of lists. *)
Infix "+++" := String.append (right associativity, at level 60).

(** ** JavaScript values of the item data *)

(** The JSON-like values the host passes between nodes.  Numbers are
    modelled by the integers: JSON has no NaN, and the node looks at a number
    of the item data (the port) through its truthiness only. *)
#[warnings="-register-all"]
Inductive JsValue : Type :=
| JsUndefined
| JsNull
| JsBool (b : bool)
| JsNumber (n : Z)
| JsString (s : string)
| JsArray (elements : list JsValue)
| JsObject (fields : list (string * JsValue))
| JsBuiltin (name : string).

(** A plain object is the list of its own properties, read by the first
    entry of a key.  What it inherits is a [JsBuiltin]: the member of
    [Object.prototype] of that name, a function (the prototype object itself
    under [__proto__]). *)
Definition JsFields : Type := list (string * JsValue).

(** The property names of [Object.prototype]. *)
Definition Object_prototype : list string :=
  ["constructor"; "__defineGetter__"; "__defineSetter__"; "hasOwnProperty";
   "__lookupGetter__"; "__lookupSetter__"; "isPrototypeOf";
   "propertyIsEnumerable"; "toString"; "valueOf"; "__proto__"; "toLocaleString"].

Definition inherited (k : string) : bool :=
  existsb (String.eqb k) Object_prototype.

Definition is_empty_string (s : string) : bool :=
  match s with EmptyString => true | String _ _ => false end.

(** [!!v]: [undefined], [null], [false], [0] and the empty string are falsy. *)
Definition truthy (v : JsValue) : bool :=
  match v with
  | JsUndefined | JsNull => false
  | JsBool b => b
  | JsNumber n => negb (n =? 0)%Z
  | JsString s => negb (is_empty_string s)
  | JsArray _ | JsObject _ | JsBuiltin _ => true
  end.

(** [fields[k]] on a plain object: the own property of that name, else the
    member of [Object.prototype] of that name, else [undefined]. *)
Fixpoint lookup (k : string) (fields : JsFields) : JsValue :=
  match fields with
  | [] => if inherited k then JsBuiltin k else JsUndefined
  | (k', v) :: rest => if String.eqb k k' then v else lookup k rest
  end.

(** [v.k], for a [v] that is neither [undefined] nor [null]: a primitive,
    an array or a built-in has none of the properties the node reads. *)
Definition get (v : JsValue) (k : string) : JsValue :=
  match v with
  | JsObject fields => lookup k fields
  | _ => JsUndefined
  end.

(** [a || b] on values. *)
Definition js_or (a b : JsValue) : JsValue := if truthy a then a else b.

(** [v === b] for a boolean literal [b]. *)
Definition strict_eq_bool (v : JsValue) (b : bool) : bool :=
  match v with
  | JsBool b' => Bool.eqb b' b
  | _ => false
  end.

(** [INodeExecutionData]: the node reads the [json] member only. *)
Record INodeExecutionData : Type := mkItem { json : JsFields }.

(** ** Thrown errors *)

(** Every value thrown by the host, the client library or a handler is an
    error object; the node looks at its class ([instanceof NodeApiError]) and
    at its [responseText], [message] members, and passes it to
    [JSON.stringify], which returns ([stringifyThrows] is [None]) or throws
    (an error with a circular or a BigInt member, or with a [toJSON] that
    throws). *)
#[warnings="-register-all"]
Inductive JsError : Type := mkError {
  isNodeApiError : bool;
  responseText : option string;
  message : option string;
  description : option string;
  stringifyThrows : option JsError
}.

(** What the constructor of the host's [NodeApiError] makes of the options
    it is given: the [message] and the [description] of the new error.  The
    host does not keep every message (n8n-workflow puts a text of its own for
    a message that names a common error code), so both are the host's. *)
Record HostRuntime : Type := mkHostRuntime {
  describeError : string -> option string -> string * option string
}.

(** [new NodeApiError(this.getNode(), {}, { message, description })]. *)
Definition NodeApiError (host : HostRuntime) (msg : string) (descr : option string)
  : JsError :=
  {| isNodeApiError := true; responseText := None;
     message := Some (fst (describeError host msg descr));
     description := snd (describeError host msg descr);
     stringifyThrows := None |}.

(** A call returns a value or throws. *)
Inductive Result (A : Type) : Type :=
| Ok (a : A)
| Throw (e : JsError).
Arguments Ok {A} a.
Arguments Throw {A} e.

Definition is_ok {A} (r : Result A) : bool :=
  match r with Ok _ => true | Throw _ => false end.

(** ** Strings of the messages *)

Definition dquote : string := String (ascii_of_nat 34) EmptyString.
Definition newline : string := String (ascii_of_nat 10) EmptyString.

(** [s1 || s2] on optional strings: the empty string is falsy. *)
Definition str_truthy (s : option string) : bool :=
  match s with
  | Some s => negb (is_empty_string s)
  | None => false
  end.

Definition str_or (a b : option string) : option string :=
  if str_truthy a then a else b.

(** A member interpolated into a template string. *)
Definition interpolate (s : option string) : string :=
  match s with Some s => s | None => "undefined" end.

(** [s || d] for a default [d] that is a string. *)
Definition str_or_else (s : option string) (d : string) : string :=
  match s with
  | Some s => if is_empty_string s then d else s
  | None => d
  end.

(** [lines.join(sep)]. *)
Fixpoint join (sep : string) (lines : list string) : string :=
  match lines with
  | [] => EmptyString
  | [l] => l
  | l :: rest => l +++ sep +++ join sep rest
  end.

(** ** Credentials *)

(** The credentials record is a plain object at run time. *)
Definition ImapCredentialsData : Type := JsFields.

(** Modelled from the spec: the member list of the [ImapCredentialsData]
    interface, declared in credentials/ImapCredentials.credentials.ts, which
    is not among the sources: "a credentials record (host, port, user,
    password, TLS flags)", the TLS flags under the names the node assigns. *)
Definition ImapCredentialsData_fields : list string :=
  ["host"; "port"; "user"; "password"; "tls"; "allowUnauthorizedCerts"].

Definition has_credentials_fields (c : ImapCredentialsData) : Prop :=
  forall k, In k (map fst c) <-> In k ImapCredentialsData_fields.

(** The sources of credentials, as the spec names them. *)
Inductive CredentialSource : Type :=
| HostCredentialStore
| NodeLocalCredentialStore
| UpstreamItemField.

(** The two of them that are credential stores. *)
Inductive CredentialStore : Type :=
| HostStore
| NodeLocalStore.

Definition source_of_store (s : CredentialStore) : CredentialSource :=
  match s with
  | HostStore => HostCredentialStore
  | NodeLocalStore => NodeLocalCredentialStore
  end.

Definition CREDENTIALS_TYPE_FROM_INPUT : string := "fromInput".

(** The object literal of lines 176-183. *)
Definition credentials_of_input (inputCredentials : JsValue) : ImapCredentialsData :=
  [ ("host", get inputCredentials "host");
    ("port", js_or (get inputCredentials "port") (JsNumber 993));
    ("user", get inputCredentials "user");
    ("password", get inputCredentials "password");
    ("tls", JsBool (negb (strict_eq_bool (get inputCredentials "tls") false)));
    ("allowUnauthorizedCerts",
       JsBool (strict_eq_bool (get inputCredentials "allowUnauthorizedCerts") true)) ].

(** ** The trace of external calls *)

Inductive LogLevel : Type := LogError | LogWarn | LogInfo.

(** How the promise of an un-awaited [client.logout()] settles.  The call
    itself returns at once, so the node never sees this. *)
Inductive Settlement : Type :=
| Resolved
| Rejected (e : JsError).

Inductive Event : Type :=
| EvGetNodeParameter (name : string) (itemIndex : nat)
| EvGetInputData
| EvGetImapCredentials (store : CredentialStore)
| EvCreateImapClient (credentials : ImapCredentialsData) (debug : option bool)
| EvConnect (r : Result unit)
| EvLogout (s : Settlement)
| EvStartErrorCatching
| EvExecuteImapAction (resource operation : string) (itemIndex : nat)
    (r : Result (option (list INodeExecutionData)))
| EvStopAndGetErrors (captured : list string)
| EvLog (level : LogLevel) (text : string)
| EvLogErrorObject (e : JsError).

Definition Trace : Type := list Event.

(** Projections of a trace. *)
Definition connect_calls (tr : Trace) : list (Result unit) :=
  flat_map (fun ev => match ev with EvConnect r => [r] | _ => [] end) tr.

Definition logout_calls (tr : Trace) : list Settlement :=
  flat_map (fun ev => match ev with EvLogout s => [s] | _ => [] end) tr.

Definition handler_calls (tr : Trace)
  : list (nat * Result (option (list INodeExecutionData))) :=
  flat_map (fun ev => match ev with
                      | EvExecuteImapAction _ _ i r => [(i, r)]
                      | _ => [] end) tr.

Definition created_clients (tr : Trace) : list ImapCredentialsData :=
  flat_map (fun ev => match ev with EvCreateImapClient c _ => [c] | _ => [] end) tr.

Definition captured_errors (tr : Trace) : list (list string) :=
  flat_map (fun ev => match ev with EvStopAndGetErrors l => [l] | _ => [] end) tr.

Definition warnings (tr : Trace) : list string :=
  flat_map (fun ev => match ev with EvLog LogWarn t => [t] | _ => [] end) tr.

Definition credential_sources (tr : Trace) : list CredentialSource :=
  flat_map (fun ev => match ev with
                      | EvGetInputData => [UpstreamItemField]
                      | EvGetImapCredentials s => [source_of_store s]
                      | _ => [] end) tr.

Definition store_reads (tr : Trace) : list CredentialStore :=
  flat_map (fun ev => match ev with EvGetImapCredentials s => [s] | _ => [] end) tr.

Definition parameter_reads (tr : Trace) : list (string * nat) :=
  flat_map (fun ev => match ev with
                      | EvGetNodeParameter n i => [(n, i)]
                      | _ => [] end) tr.

(** What a handler call contributes to the result list: a falsy result
    ([null]) contributes nothing. *)
Definition returned_items (r : Result (option (list INodeExecutionData)))
  : list INodeExecutionData :=
  match r with
  | Ok (Some items) => items
  | _ => []
  end.

(** ** The environment and the monad of the node *)

Section Node.

(** The state of everything outside the node: the IMAP client and its
    connection, the server, the error-interception shim. *)
Variable W : Type.

(** One run of a computation: the external calls it made, the state it left
    and its result. *)
Record Run (A : Type) : Type := mkRun {
  events : Trace;
  final : W;
  outcome : Result A
}.
Arguments mkRun {A} _ _ _.
Arguments events {A} _.
Arguments final {A} _.
Arguments outcome {A} _.

Definition M (A : Type) : Type := W -> Run A.

Definition ret {A} (a : A) : M A := fun w => mkRun [] w (Ok a).

Definition throw {A} (e : JsError) : M A := fun w => mkRun [] w (Throw e).

Definition bind {A B} (m : M A) (f : A -> M B) : M B :=
  fun w =>
    let r := m w in
    match outcome r with
    | Ok a => let r' := f a (final r) in
              mkRun (events r ++ events r') (final r') (outcome r')
    | Throw e => mkRun (events r) (final r) (Throw e)
    end.

(** [try { m } catch (error) { handler error }]. *)
Definition try_catch {A} (m : M A) (handler : JsError -> M A) : M A :=
  fun w =>
    let r := m w in
    match outcome r with
    | Ok a => r
    | Throw e => let r' := handler e (final r) in
                 mkRun (events r ++ events r') (final r') (outcome r')
    end.

Definition emit (ev : Event) : M unit := fun w => mkRun [ev] w (Ok tt).

(** A pure call of the host, recorded in the trace. *)
Definition host_call {A} (ev : Event) (r : Result A) : M A :=
  fun w => mkRun [ev] w r.

Notation "x <- m ;; k" := (bind m (fun x => k))
  (at level 100, m at next level, right associativity).
Notation "m ;;; k" := (bind m (fun _ => k))
  (at level 100, right associativity).

(** An operation definition of a resource: its name and its handler.  The
    handler is given the item index and works on the shared client. *)
Record OperationDef : Type := mkOperationDef {
  operation_value : string;
  executeImapAction : nat -> W -> W * Result (option (list INodeExecutionData))
}.

Record ResourceDef : Type := mkResourceDef {
  resource_value : string;
  operationDefs : list OperationDef
}.

Record Env : Type := mkEnv {
  (** the host's [NodeApiError] class *)
  runtime : HostRuntime;
  (** [this.getNodeParameter(name, itemIndex) as string] *)
  getNodeParameter : string -> nat -> Result string;
  (** [this.getInputData()] *)
  getInputData : list INodeExecutionData;
  (** what [getImapCredentials(this)] reads and returns *)
  storedCredentials : CredentialStore * Result ImapCredentialsData;
  (** [process.env.N8N_LOG_LEVEL] *)
  N8N_LOG_LEVEL : option string;
  (** [createImapClient(credentials, logger, enableDebugLogging)]; the last
      argument is absent in the credential test *)
  createImapClient : ImapCredentialsData -> option bool -> W -> W * Result unit;
  (** [await client.connect()] *)
  connect : W -> W * Result unit;
  (** [client.logout()], not awaited: the state left and how the promise
      settles later *)
  logout : W -> W * Settlement;
  (** [ImapFlowErrorCatcher.getInstance().startErrorCatching()] *)
  startErrorCatching : W -> W;
  (** [ImapFlowErrorCatcher.getInstance().stopAndGetErrors()] *)
  stopAndGetErrors : W -> W * list string;
  (** the table of operations/ResourcesList *)
  allResourceDefinitions : list ResourceDef
}.

Variable env : Env.

Definition param (name : string) (itemIndex : nat) : M string :=
  host_call (EvGetNodeParameter name itemIndex) (getNodeParameter env name itemIndex).

Definition inputData : M (list INodeExecutionData) :=
  host_call EvGetInputData (Ok (getInputData env)).

Definition log (level : LogLevel) (text : string) : M unit :=
  emit (EvLog level text).

(** Modelled from the spec: [getImapCredentials] of utils/CredentialsSelector,
    which is not among the sources.  It serves the two sources that are not
    the upstream item: "credential resolution from one of three sources
    (host credential store, node-local credential store, upstream workflow
    item field)".  Which of the two stores it reads, and what it finds there,
    is the environment's. *)
Definition getImapCredentials : M ImapCredentialsData :=
  host_call (EvGetImapCredentials (fst (storedCredentials env)))
            (snd (storedCredentials env)).

Definition client_create (credentials : ImapCredentialsData) (debug : option bool)
  : M unit :=
  fun w => let '(w', r) := createImapClient env credentials debug w in
           mkRun [EvCreateImapClient credentials debug] w' r.

Definition client_connect : M unit :=
  fun w => let '(w', r) := connect env w in mkRun [EvConnect r] w' r.

Definition client_logout : M unit :=
  fun w => let '(w', s) := logout env w in mkRun [EvLogout s] w' (Ok tt).

Definition catcher_start : M unit :=
  fun w => mkRun [EvStartErrorCatching] (startErrorCatching env w) (Ok tt).

Definition catcher_stop : M (list string) :=
  fun w => let '(w', l) := stopAndGetErrors env w in
           mkRun [EvStopAndGetErrors l] w' (Ok l).

Definition handler_call (resource operation : string) (handler : OperationDef)
    (itemIndex : nat) : M (option (list INodeExecutionData)) :=
  fun w => let '(w', r) := executeImapAction handler itemIndex w in
           mkRun [EvExecuteImapAction resource operation itemIndex r] w' r.

(** ** Credential resolution (lines 138-187) *)

Definition FIRST_ITEM_INDEX : nat := 0.

(** A [TypeError] of the engine, as for reading a member of [undefined]. *)
Definition TypeError (msg : string) : JsError :=
  {| isNodeApiError := false; responseText := None;
     message := Some msg; description := None; stringifyThrows := None |}.

Definition credentialsFromInput : M ImapCredentialsData :=
  items <- inputData ;;
  if Nat.eqb (List.length items) 0 then
    throw (NodeApiError (runtime env) "No input items provided" None)
  else
    credentialsField <- param "credentialsField" FIRST_ITEM_INDEX ;;
    match nth_error items FIRST_ITEM_INDEX with
    | None => throw (TypeError "Cannot read properties of undefined (reading 'json')")
    | Some first =>
        let inputCredentials := lookup credentialsField (json first) in
        if negb (truthy inputCredentials) then
          throw (NodeApiError (runtime env)
                   ("No credentials found in field " +++ dquote +++ credentialsField +++ dquote)
                   None)
        else if negb (truthy (get inputCredentials "host"))
                || negb (truthy (get inputCredentials "user"))
                || negb (truthy (get inputCredentials "password")) then
          throw (NodeApiError (runtime env)
                   "Credentials must contain at least host, user, and password fields"
                   None)
        else
          ret (credentials_of_input inputCredentials)
    end.

Definition resolveCredentials : M ImapCredentialsData :=
  authentication <- param "authentication" FIRST_ITEM_INDEX ;;
  if String.eqb authentication CREDENTIALS_TYPE_FROM_INPUT then
    credentialsFromInput
  else
    getImapCredentials.

(** ** The per-item dispatch (lines 214-271) *)

(** [allResourceDefinitions.find(...)?.operationDefs.find(...)] *)
Definition find_handler (resource operation : string) : option OperationDef :=
  match find (fun resourceDef => String.eqb (resource_value resourceDef) resource)
             (allResourceDefinitions env) with
  | Some resourceDef =>
      find (fun operationDef => String.eqb (operation_value operationDef) operation)
           (operationDefs resourceDef)
  | None => None
  end.

Definition operation_of (resource operation : string) : string :=
  "Operation " +++ dquote +++ operation +++ dquote
    +++ " for resource " +++ dquote +++ resource +++ dquote.

Definition unknown_operation (resource operation : string) : string :=
  "Unknown operation " +++ dquote +++ operation +++ dquote
    +++ " for resource " +++ dquote +++ resource +++ dquote.

Definition joined_errors (internalImapErrors : list string) : string :=
  join (", " +++ newline) internalImapErrors.

(** [error.responseText || error.message || undefined], then the fallbacks
    of lines 247-253. *)
Definition errorMessage_of (error : JsError) (internalImapErrorsMessage : string)
  : string :=
  let errorMessage := str_or (str_or (responseText error) (message error)) None in
  if negb (str_truthy errorMessage) then
    if negb (is_empty_string internalImapErrorsMessage)
    then internalImapErrorsMessage
    else "Unknown error"
  else interpolate errorMessage.

(** [errorDetails.description], set at lines 259-261. *)
Definition errorDescription_of (internalImapErrorsMessage : string) : option string :=
  if negb (is_empty_string internalImapErrorsMessage)
  then Some ("The following errors were reported by the IMAP server: " +++ newline
               +++ internalImapErrorsMessage)
  else None.

(** The error the [catch] block of lines 231-263 throws for the caught
    [error], given the lines the shim returned: the error itself, what
    [JSON.stringify] throws at line 255, or the new error of line 262. *)
Definition rethrown (error : JsError) (internalImapErrors : list string) : JsError :=
  if isNodeApiError error then error
  else match stringifyThrows error with
       | Some thrown => thrown
       | None =>
           NodeApiError (runtime env)
                        (errorMessage_of error (joined_errors internalImapErrors))
                        (errorDescription_of (joined_errors internalImapErrors))
       end.

(** [this.logger.error(JSON.stringify(error))] of line 255: the argument is
    evaluated first, and the logger is called if that returns. *)
Definition log_serialised (error : JsError) : M unit :=
  match stringifyThrows error with
  | Some thrown => throw thrown
  | None => emit (EvLogErrorObject error)
  end.

(** The [catch] block of lines 231-263. *)
Definition item_catch {A} (resource operation : string) (error : JsError) : M A :=
  internalImapErrors <- catcher_stop ;;
  let internalImapErrorsMessage := joined_errors internalImapErrors in
  (if Nat.ltb 0 (List.length internalImapErrors)
   then log LogError ("IMAP server reported errors: " +++ internalImapErrorsMessage)
   else ret tt) ;;;
  if isNodeApiError error then
    throw error
  else
    let errorMessage := errorMessage_of error internalImapErrorsMessage in
    log LogError (operation_of resource operation +++ " failed: " +++ errorMessage) ;;;
    log_serialised error ;;;
    throw (NodeApiError (runtime env) errorMessage
                        (errorDescription_of internalImapErrorsMessage)).

(** The [try] block of lines 221-230, for one item. *)
Definition item_try (resource operation : string) (handler : OperationDef)
    (itemIndex : nat) (resultItems : list INodeExecutionData)
  : M (list INodeExecutionData) :=
  catcher_start ;;;
  result <- handler_call resource operation handler itemIndex ;;
  match result with
  | Some items => ret (resultItems ++ items)
  | None =>
      log LogWarn (operation_of resource operation +++ " returned no data") ;;;
      ret resultItems
  end.

(** The loop of line 220: [remaining] is [items.length - itemIndex]. *)
Fixpoint for_items (resource operation : string) (handler : OperationDef)
    (remaining itemIndex : nat) (resultItems : list INodeExecutionData)
  : M (list INodeExecutionData) :=
  match remaining with
  | 0 => ret resultItems
  | S remaining' =>
      resultItems' <- try_catch (item_try resource operation handler itemIndex resultItems)
                                (item_catch resource operation) ;;
      for_items resource operation handler remaining' (S itemIndex) resultItems'
  end.

(** The [try] block of lines 204-275. *)
Definition run_operation : M (list (list INodeExecutionData)) :=
  resource <- param "resource" FIRST_ITEM_INDEX ;;
  operation <- param "operation" FIRST_ITEM_INDEX ;;
  resultItems <-
    match find_handler resource operation with
    | Some handler =>
        items <- inputData ;;
        for_items resource operation handler (List.length items) 0 []
    | None =>
        log LogError (unknown_operation resource operation) ;;;
        throw (NodeApiError (runtime env) (unknown_operation resource operation) None)
    end ;;
  client_logout ;;;
  log LogInfo "IMAP connection closed" ;;;
  ret [resultItems].

(** The [catch] block of lines 277-282. *)
Definition cleanup {A} (error : JsError) : M A :=
  client_logout ;;;
  log LogError ("IMAP connection closed. Error: " +++ interpolate (message error)) ;;;
  throw error.

(** Lines 194-201. *)
Definition connect_or_fail : M unit :=
  try_catch client_connect
    (fun error =>
       log LogError ("Connection failed: " +++ interpolate (message error)) ;;;
       throw (NodeApiError (runtime env)
                (str_or_else (str_or (responseText error) (message error)) "Unknown error")
                None)).

(** ** [Imap.execute] *)

Definition execute : M (list (list INodeExecutionData)) :=
  credentials <- resolveCredentials ;;
  let N8N_LOG_LEVEL := str_or_else (N8N_LOG_LEVEL env) "info" in
  let ENABLE_DEBUG_LOGGING := String.eqb N8N_LOG_LEVEL "debug" in
  client_create credentials (Some ENABLE_DEBUG_LOGGING) ;;;
  connect_or_fail ;;;
  try_catch run_operation cleanup.

(** ** [testImapCredentials] *)

Record INodeCredentialTestResult : Type := mkTestResult {
  status : string;
  test_message : option string
}.

(** The [return] inside the [catch] leaves the function; the [try] block
    falls through to the final [return]. *)
Definition testImapCredentials (credentials : ImapCredentialsData)
  : M INodeCredentialTestResult :=
  early <- try_catch
             (client_create credentials None ;;;
              client_connect ;;;
              client_logout ;;;
              ret None)
             (fun error =>
                ret (Some {| status := "Error"; test_message := message error |})) ;;
  match early with
  | Some result => ret result
  | None => ret {| status := "OK"; test_message := Some "Success" |}
  end.

End Node.

Arguments mkRun {W A} _ _ _.
Arguments events {W A} _.
Arguments final {W A} _.
Arguments outcome {W A} _.
Arguments ret {W A} _ _.
Arguments throw {W A} _ _.
Arguments bind {W A B} _ _ _.
Arguments try_catch {W A} _ _ _.
Arguments emit {W} _ _.
Arguments host_call {W A} _ _ _.
Arguments mkOperationDef {W} _ _.
Arguments operation_value {W} _.
Arguments executeImapAction {W} _ _ _.
Arguments mkResourceDef {W} _ _.
Arguments resource_value {W} _.
Arguments operationDefs {W} _.
Arguments runtime {W} _.
Arguments getNodeParameter {W} _ _ _.
Arguments getInputData {W} _.
Arguments storedCredentials {W} _.
Arguments N8N_LOG_LEVEL {W} _.
Arguments createImapClient {W} _ _ _ _.
Arguments connect {W} _ _.
Arguments logout {W} _ _.
Arguments startErrorCatching {W} _ _.
Arguments stopAndGetErrors {W} _ _.
Arguments allResourceDefinitions {W} _.
Arguments param {W} env name itemIndex _.
Arguments inputData {W} env _.
Arguments log {W} level text _.
Arguments getImapCredentials {W} env _.
Arguments client_create {W} env credentials debug _.
Arguments client_connect {W} env _.
Arguments client_logout {W} env _.
Arguments catcher_start {W} env _.
Arguments catcher_stop {W} env _.
Arguments handler_call {W} resource operation handler itemIndex _.
Arguments credentialsFromInput {W} env _.
Arguments resolveCredentials {W} env _.
Arguments find_handler {W} env resource operation.
Arguments rethrown {W} env error internalImapErrors.
Arguments log_serialised {W} error _.
Arguments item_catch {W} env {A} resource operation error _.
Arguments item_try {W} env resource operation handler itemIndex resultItems _.
Arguments for_items {W} env resource operation handler remaining itemIndex resultItems _.
Arguments run_operation {W} env _.
Arguments cleanup {W} env {A} error _.
Arguments connect_or_fail {W} env _.
Arguments execute {W} env _.
Arguments testImapCredentials {W} env credentials _.

(** ** Descriptions used in the statements *)

(** The log entries of the [catch] block of lines 231-263. *)
Definition catch_logs (resource operation : string) (error : JsError)
    (internalImapErrors : list string) : Trace :=
  (if Nat.ltb 0 (List.length internalImapErrors)
   then [EvLog LogError ("IMAP server reported errors: "
                           +++ joined_errors internalImapErrors)]
   else [])
  ++ (if isNodeApiError error then []
      else EvLog LogError (operation_of resource operation +++ " failed: "
                             +++ errorMessage_of error (joined_errors internalImapErrors))
             :: match stringifyThrows error with
                | Some _ => []
                | None => [EvLogErrorObject error]
                end).

(** The warning of line 229. *)
Definition no_data_warning (resource operation : string) : string :=
  operation_of resource operation +++ " returned no data".

Definition warning_of (resource operation : string)
    (r : Result (option (list INodeExecutionData))) : list string :=
  match r with
  | Ok None => [no_data_warning resource operation]
  | _ => []
  end.

(** The events the dispatch loop can produce. *)
Definition loop_event (ev : Event) : bool :=
  match ev with
  | EvStartErrorCatching | EvExecuteImapAction _ _ _ _ | EvStopAndGetErrors _
  | EvLog _ _ | EvLogErrorObject _ => true
  | _ => false
  end.

(** The events of the phases before the client is created. *)
Definition resolution_event (ev : Event) : bool :=
  match ev with
  | EvGetNodeParameter _ i => Nat.eqb i 0
  | EvGetInputData | EvGetImapCredentials _ => true
  | _ => false
  end.

(** The resource and operation of each handler call of a trace. *)
Definition handler_targets (tr : Trace) : list (string * string) :=
  flat_map (fun ev => match ev with
                      | EvExecuteImapAction r o _ _ => [(r, o)]
                      | _ => [] end) tr.

(** Error-level log entries: [logger.error] calls. *)
Definition is_error_log (ev : Event) : bool :=
  match ev with
  | EvLog LogError _ | EvLogErrorObject _ => true
  | _ => false
  end.

Definition error_logs (tr : Trace) : Trace := filter is_error_log tr.

(** The loop of a run that threw no error: it called the handler for
    [remaining] items from [itemIndex] on, and appended what each call
    returned. *)
Definition LoopCompleted (resource operation : string) (remaining itemIndex : nat)
    (resultItems : list INodeExecutionData) (tr : Trace)
    (res : Result (list INodeExecutionData)) : Prop :=
  exists returns : list (option (list INodeExecutionData)),
    List.length returns = remaining /\
    handler_calls tr = combine (seq itemIndex remaining) (map Ok returns) /\
    res = Ok (resultItems ++ flat_map returned_items (map Ok returns)) /\
    captured_errors tr = [] /\
    warnings tr = flat_map (warning_of resource operation) (map Ok returns) /\
    error_logs tr = [].

(** The loop of a run in which the call for item [itemIndex + k] threw. *)
Definition LoopAborted {W} (env : Env W) (remaining itemIndex : nat) (tr : Trace)
    (res : Result (list INodeExecutionData)) : Prop :=
  exists (k : nat) (returns : list (option (list INodeExecutionData)))
         (e : JsError) (captured : list string),
    k < remaining /\
    List.length returns = k /\
    handler_calls tr
      = combine (seq itemIndex k) (map Ok returns) ++ [(itemIndex + k, Throw e)] /\
    res = Throw (rethrown env e captured) /\
    captured_errors tr = [captured].

(** The debug switch passed to [createImapClient] (lines 190-192). *)
Definition debug_logging {W} (env : Env W) : option bool :=
  Some (String.eqb (str_or_else (N8N_LOG_LEVEL env) "info") "debug").

(** The log entry of the cleanup path (line 280). *)
Definition closed_with_error (error : JsError) : Event :=
  EvLog LogError ("IMAP connection closed. Error: " +++ interpolate (message error)).

(** The error thrown when [connect] fails (lines 196-200). *)
Definition connection_error {W} (env : Env W) (error : JsError) : JsError :=
  NodeApiError (runtime env)
    (str_or_else (str_or (responseText error) (message error)) "Unknown error") None.

(** The handler calls of a loop over one shared client, told apart from the
    loop itself: each call runs in the state the call before it left (after
    the shim is armed again), and a call that throws is the last. *)
Fixpoint sequential_calls {W} (env : Env W) (handler : OperationDef W)
    (remaining itemIndex : nat) (w : W)
  : list (nat * Result (option (list INodeExecutionData))) :=
  match remaining with
  | 0 => []
  | S remaining' =>
      let '(w', r) := executeImapAction handler itemIndex (startErrorCatching env w) in
      (itemIndex, r)
        :: match r with
           | Ok _ => sequential_calls env handler remaining' (S itemIndex) w'
           | Throw _ => []
           end
  end.

(** The state of the client once [connect] has succeeded, if it does. *)
Definition state_after_connect {W} (env : Env W) (w : W) : option W :=
  let r0 := resolveCredentials env w in
  match outcome r0 with
  | Ok credentials =>
      let '(w1, created) :=
        createImapClient env credentials (debug_logging env) (final r0) in
      match created with
      | Ok _ => let '(w2, connected) := connect env w1 in
                match connected with
                | Ok _ => Some w2
                | Throw _ => None
                end
      | Throw _ => None
      end
  | Throw _ => None
  end.

(** The results of the credential test. *)
Definition test_ok : INodeCredentialTestResult :=
  {| status := "OK"; test_message := Some "Success" |}.

Definition test_error (error : JsError) : INodeCredentialTestResult :=
  {| status := "Error"; test_message := message error |}.

(** ** Example environments

    The state is the number of calls the client has served, so that what a
    handler returns shows the state it ran in. *)

Definition example_credentials : JsValue :=
  JsObject [("host", JsString "imap.example.org"); ("user", JsString "alice");
            ("password", JsString "secret"); ("tls", JsBool false)].

Definition example_item (n : Z) : INodeExecutionData :=
  mkItem [("credentials", example_credentials); ("n", JsNumber n)].

Definition example_output (itemIndex served : nat) : INodeExecutionData :=
  mkItem [("item", JsNumber (Z.of_nat itemIndex));
          ("served", JsNumber (Z.of_nat served))].

Definition example_error : JsError :=
  {| isNodeApiError := false; responseText := None;
     message := Some "Command failed"; description := None;
     stringifyThrows := None |}.

Definition silent_error : JsError :=
  {| isNodeApiError := false; responseText := None;
     message := None; description := None; stringifyThrows := None |}.

(** A host that keeps the message and the description it is given. *)
Definition plain_host : HostRuntime :=
  {| describeError := fun msg descr => (msg, descr) |}.

(** Returns nothing for item 1 and one item otherwise. *)
Definition list_handler : OperationDef nat :=
  mkOperationDef "list"
    (fun itemIndex served =>
       (S served,
        if Nat.eqb itemIndex 1 then Ok None
        else Ok (Some [example_output itemIndex served]))).

(** Throws for item 1. *)
Definition move_handler : OperationDef nat :=
  mkOperationDef "move"
    (fun itemIndex served =>
       (S served,
        if Nat.eqb itemIndex 1 then Throw silent_error
        else Ok (Some [example_output itemIndex served]))).

(** An error that holds a reference to itself. *)
Definition circular_error : JsError :=
  {| isNodeApiError := false; responseText := None;
     message := Some "Socket closed"; description := None;
     stringifyThrows := Some (TypeError "Converting circular structure to JSON") |}.

(** Throws the error that cannot be serialised for item 1. *)
Definition copy_handler : OperationDef nat :=
  mkOperationDef "copy"
    (fun itemIndex served =>
       (S served,
        if Nat.eqb itemIndex 1 then Throw circular_error
        else Ok (Some [example_output itemIndex served]))).

Definition example_parameter (authentication operation : string) (name : string)
  : Result string :=
  if String.eqb name "authentication" then Ok authentication
  else if String.eqb name "credentialsField" then Ok "credentials"
  else if String.eqb name "resource" then Ok "email"
  else if String.eqb name "operation" then Ok operation
  else Throw example_error.

Definition stored_example : ImapCredentialsData :=
  [("host", JsString "mail.example.org"); ("port", JsNumber 143);
   ("user", JsString "bob"); ("password", JsString "hunter2");
   ("tls", JsBool true); ("allowUnauthorizedCerts", JsBool false)].

Definition example_env (authentication operation : string)
    (items : list INodeExecutionData) (connected : Result unit)
    (captured : list string) : Env nat :=
  {| runtime := plain_host;
     getNodeParameter := fun name _ => example_parameter authentication operation name;
     getInputData := items;
     storedCredentials := (NodeLocalStore, Ok stored_example);
     N8N_LOG_LEVEL := None;
     createImapClient := fun _ _ served => (served, Ok tt);
     connect := fun served => (served, connected);
     logout := fun served => (served, Rejected example_error);
     startErrorCatching := fun served => served;
     stopAndGetErrors := fun served => (served, captured);
     allResourceDefinitions := [mkResourceDef "email" [list_handler; move_handler]] |}.

Definition three_items : list INodeExecutionData :=
  [example_item 1; example_item 2; example_item 3].

(** Credentials from the first item, three items, every call returns. *)
Definition env_list : Env nat :=
  example_env "fromInput" "list" three_items (Ok tt) [].

(** The handler throws for the second item; the shim captured one line,
    which is empty. *)
Definition env_empty_line : Env nat :=
  example_env "fromInput" "move" three_items (Ok tt) [EmptyString].

(** The environment with another table of operations. *)
Definition with_resources {W} (env : Env W) (definitions : list (ResourceDef W))
  : Env W :=
  {| runtime := runtime env;
     getNodeParameter := getNodeParameter env;
     getInputData := getInputData env;
     storedCredentials := storedCredentials env;
     N8N_LOG_LEVEL := N8N_LOG_LEVEL env;
     createImapClient := createImapClient env;
     connect := connect env;
     logout := logout env;
     startErrorCatching := startErrorCatching env;
     stopAndGetErrors := stopAndGetErrors env;
     allResourceDefinitions := definitions |}.

(** The handler throws for the second item an error with a circular member;
    the shim captured one line. *)
Definition env_copy : Env nat :=
  with_resources
    (example_env "fromInput" "copy" three_items (Ok tt) ["NO Mailbox missing"])
    [mkResourceDef "email" [list_handler; copy_handler]].

(** The handler throws for the second item; the shim captured two lines. *)
Definition env_move : Env nat :=
  example_env "fromInput" "move" three_items (Ok tt)
              ["NO Mailbox missing"; "BAD Command"].

(** Credentials from the upstream item, and no item at all. *)
Definition env_no_items : Env nat :=
  example_env "fromInput" "list" [] (Ok tt) [].

(** The server refuses the connection. *)
Definition env_refused : Env nat :=
  example_env "imapThisNode" "list" three_items (Throw example_error) [].

(** A host that puts a text of its own for one message. *)
Definition descriptive_host : HostRuntime :=
  {| describeError := fun msg descr =>
       if String.eqb msg "connect ECONNREFUSED 127.0.0.1:993"
       then ("The service refused the connection - perhaps it is offline", descr)
       else (msg, descr) |}.

Definition refused_error : JsError :=
  {| isNodeApiError := false; responseText := None;
     message := Some "connect ECONNREFUSED 127.0.0.1:993"; description := None;
     stringifyThrows := None |}.

(** Nothing listens at the port, on that host. *)
Definition env_offline : Env nat :=
  {| runtime := descriptive_host;
     getNodeParameter := getNodeParameter env_refused;
     getInputData := getInputData env_refused;
     storedCredentials := storedCredentials env_refused;
     N8N_LOG_LEVEL := N8N_LOG_LEVEL env_refused;
     createImapClient := createImapClient env_refused;
     connect := fun served => (served, Throw refused_error);
     logout := logout env_refused;
     startErrorCatching := startErrorCatching env_refused;
     stopAndGetErrors := stopAndGetErrors env_refused;
     allResourceDefinitions := allResourceDefinitions env_refused |}.

(** Stored credentials and an operation that no resource defines. *)
Definition env_unknown : Env nat :=
  example_env "imapThisNode" "purge" three_items (Ok tt) [].

(** A run that continues the events [tr]. *)
Definition prepend {W A} (tr : Trace) (r : Run W A) : Run W A :=
  mkRun (tr ++ events r) (final r) (outcome r).

(** ** Further descriptions of a trace *)

(** The calls of [startErrorCatching]. *)
Definition shim_starts (tr : Trace) : list unit :=
  flat_map (fun ev => match ev with EvStartErrorCatching => [tt] | _ => [] end) tr.

(** The debug switch of each client created. *)
Definition debug_flags (tr : Trace) : list (option bool) :=
  flat_map (fun ev => match ev with EvCreateImapClient _ d => [d] | _ => [] end) tr.

(** [part] occurs in [s]. *)
Definition contains (s part : string) : Prop :=
  exists before after, s = before +++ part +++ after.

(** The environment with other input items. *)
Definition with_input_data {W} (env : Env W) (items : list INodeExecutionData)
  : Env W :=
  {| runtime := runtime env;
     getNodeParameter := getNodeParameter env;
     getInputData := items;
     storedCredentials := storedCredentials env;
     N8N_LOG_LEVEL := N8N_LOG_LEVEL env;
     createImapClient := createImapClient env;
     connect := connect env;
     logout := logout env;
     startErrorCatching := startErrorCatching env;
     stopAndGetErrors := stopAndGetErrors env;
     allResourceDefinitions := allResourceDefinitions env |}.

(** The environment with another log level. *)
Definition with_log_level {W} (env : Env W) (level : option string) : Env W :=
  {| runtime := runtime env;
     getNodeParameter := getNodeParameter env;
     getInputData := getInputData env;
     storedCredentials := storedCredentials env;
     N8N_LOG_LEVEL := level;
     createImapClient := createImapClient env;
     connect := connect env;
     logout := logout env;
     startErrorCatching := startErrorCatching env;
     stopAndGetErrors := stopAndGetErrors env;
     allResourceDefinitions := allResourceDefinitions env |}.

(** The environment in which reading the parameter [missing] throws. *)
Definition without_parameter {W} (env : Env W) (missing : string) (e : JsError)
  : Env W :=
  {| runtime := runtime env;
     getNodeParameter := fun name itemIndex =>
                           if String.eqb name missing then Throw e
                           else getNodeParameter env name itemIndex;
     getInputData := getInputData env;
     storedCredentials := storedCredentials env;
     N8N_LOG_LEVEL := N8N_LOG_LEVEL env;
     createImapClient := createImapClient env;
     connect := connect env;
     logout := logout env;
     startErrorCatching := startErrorCatching env;
     stopAndGetErrors := stopAndGetErrors env;
     allResourceDefinitions := allResourceDefinitions env |}.

(** The environment in which the parameter [name] is [value]. *)
Definition with_parameter {W} (env : Env W) (name value : string) : Env W :=
  {| runtime := runtime env;
     getNodeParameter := fun name' itemIndex =>
                           if String.eqb name' name then Ok value
                           else getNodeParameter env name' itemIndex;
     getInputData := getInputData env;
     storedCredentials := storedCredentials env;
     N8N_LOG_LEVEL := N8N_LOG_LEVEL env;
     createImapClient := createImapClient env;
     connect := connect env;
     logout := logout env;
     startErrorCatching := startErrorCatching env;
     stopAndGetErrors := stopAndGetErrors env;
     allResourceDefinitions := allResourceDefinitions env |}.

(** An item whose credentials give every member, and more. *)
Definition port_item : INodeExecutionData :=
  mkItem [("credentials",
           JsObject [("host", JsString "mail.example.org"); ("port", JsNumber 143);
                     ("user", JsString "bob"); ("password", JsString "hunter2");
                     ("tls", JsString "no"); ("allowUnauthorizedCerts", JsBool true);
                     ("comment", JsString "office")])].

Definition env_port : Env nat :=
  example_env "fromInput" "list" [port_item] (Ok tt) [].

(** An item whose credentials lack the password. *)
Definition no_password_item : INodeExecutionData :=
  mkItem [("credentials",
           JsObject [("host", JsString "mail.example.org");
                     ("user", JsString "bob")])].

Definition env_no_password : Env nat :=
  example_env "fromInput" "list" [no_password_item] (Ok tt) [].

(** Stored credentials and no input item. *)
Definition env_idle : Env nat :=
  example_env "imapThisNode" "list" [] (Ok tt) [].

(** The first item carries a text where the credentials should be. *)
Definition text_item : INodeExecutionData :=
  mkItem [("credentials", JsString "alice:secret")].

Definition env_text : Env nat :=
  example_env "fromInput" "list" [text_item; example_item 2] (Ok tt) [].

(** * Properties *)

(** ** Traces *)

Lemma flat_map_all_nil {A B} (f : A -> list B) (l : list A) :
  (forall x, In x l -> f x = []) -> flat_map f l = [].
Proof.
  induction l as [|x l IH]; intros H; simpl.
  - reflexivity.
  - rewrite (H x) by (left; reflexivity).
    apply IH. intros y Hy. apply H. right. exact Hy.
Qed.

Lemma map_fst_combine_ok {A B} (l : list A) (l' : list B) :
  List.length l = List.length l' -> map fst (combine l l') = l.
Proof.
  revert l'. induction l as [|a l IH]; intros [|b l'] H; simpl in *;
    try discriminate; try reflexivity.
  f_equal. apply IH. lia.
Qed.

Lemma map_snd_combine_ok {A B} (l : list A) (l' : list B) :
  List.length l = List.length l' -> map snd (combine l l') = l'.
Proof.
  revert l'. induction l as [|a l IH]; intros [|b l'] H; simpl in *;
    try discriminate; try reflexivity.
  f_equal. apply IH. lia.
Qed.

Lemma connect_calls_app (a b : Trace) :
  connect_calls (a ++ b) = connect_calls a ++ connect_calls b.
Proof. apply flat_map_app. Qed.

Lemma logout_calls_app (a b : Trace) :
  logout_calls (a ++ b) = logout_calls a ++ logout_calls b.
Proof. apply flat_map_app. Qed.

Lemma handler_calls_app (a b : Trace) :
  handler_calls (a ++ b) = handler_calls a ++ handler_calls b.
Proof. apply flat_map_app. Qed.

Lemma handler_targets_app (a b : Trace) :
  handler_targets (a ++ b) = handler_targets a ++ handler_targets b.
Proof. apply flat_map_app. Qed.

Lemma created_clients_app (a b : Trace) :
  created_clients (a ++ b) = created_clients a ++ created_clients b.
Proof. apply flat_map_app. Qed.

Lemma captured_errors_app (a b : Trace) :
  captured_errors (a ++ b) = captured_errors a ++ captured_errors b.
Proof. apply flat_map_app. Qed.

Lemma warnings_app (a b : Trace) :
  warnings (a ++ b) = warnings a ++ warnings b.
Proof. apply flat_map_app. Qed.

Lemma credential_sources_app (a b : Trace) :
  credential_sources (a ++ b) = credential_sources a ++ credential_sources b.
Proof. apply flat_map_app. Qed.

Lemma parameter_reads_app (a b : Trace) :
  parameter_reads (a ++ b) = parameter_reads a ++ parameter_reads b.
Proof. apply flat_map_app. Qed.

Lemma store_reads_app (a b : Trace) :
  store_reads (a ++ b) = store_reads a ++ store_reads b.
Proof. apply flat_map_app. Qed.

Lemma error_logs_app (a b : Trace) :
  error_logs (a ++ b) = error_logs a ++ error_logs b.
Proof. apply filter_app. Qed.

Create Rewrite HintDb trace.
#[export] Hint Rewrite connect_calls_app logout_calls_app handler_calls_app
  handler_targets_app created_clients_app captured_errors_app warnings_app
  credential_sources_app parameter_reads_app error_logs_app store_reads_app
  : trace.

Section TraceFacts.

Variable tr : Trace.
Hypothesis Hloop : forallb loop_event tr = true.

Let each : forall ev, In ev tr -> loop_event ev = true.
Proof. apply forallb_forall. exact Hloop. Qed.

Lemma loop_no_connect : connect_calls tr = [].
Proof.
  apply flat_map_all_nil. intros ev Hev. apply each in Hev.
  destruct ev; simpl in Hev; try discriminate; reflexivity.
Qed.

Lemma loop_no_logout : logout_calls tr = [].
Proof.
  apply flat_map_all_nil. intros ev Hev. apply each in Hev.
  destruct ev; simpl in Hev; try discriminate; reflexivity.
Qed.

Lemma loop_no_client : created_clients tr = [].
Proof.
  apply flat_map_all_nil. intros ev Hev. apply each in Hev.
  destruct ev; simpl in Hev; try discriminate; reflexivity.
Qed.

Lemma loop_no_parameter : parameter_reads tr = [].
Proof.
  apply flat_map_all_nil. intros ev Hev. apply each in Hev.
  destruct ev; simpl in Hev; try discriminate; reflexivity.
Qed.

Lemma loop_no_store : store_reads tr = [].
Proof.
  apply flat_map_all_nil. intros ev Hev. apply each in Hev.
  destruct ev; simpl in Hev; try discriminate; reflexivity.
Qed.

Lemma loop_no_source : credential_sources tr = [].
Proof.
  apply flat_map_all_nil. intros ev Hev. apply each in Hev.
  destruct ev; simpl in Hev; try discriminate; reflexivity.
Qed.

End TraceFacts.

Lemma forallb_filter_nil (t : Trace) :
  forallb resolution_event t = true -> filter is_error_log t = [].
Proof.
  induction t as [|ev t IH]; intros H; [reflexivity|].
  simpl in H. apply andb_prop in H. destruct H as [Hev Ht].
  simpl. destruct ev; simpl in Hev; try discriminate; simpl; apply IH; exact Ht.
Qed.

Section ResolutionTrace.

Variable tr : Trace.
Hypothesis Hres : forallb resolution_event tr = true.

Let each : forall ev, In ev tr -> resolution_event ev = true.
Proof. apply forallb_forall. exact Hres. Qed.

Lemma resolution_no_connect : connect_calls tr = [].
Proof.
  apply flat_map_all_nil. intros ev Hev. apply each in Hev.
  destruct ev; simpl in Hev; try discriminate; reflexivity.
Qed.

Lemma resolution_no_logout : logout_calls tr = [].
Proof.
  apply flat_map_all_nil. intros ev Hev. apply each in Hev.
  destruct ev; simpl in Hev; try discriminate; reflexivity.
Qed.

Lemma resolution_no_handler : handler_calls tr = [].
Proof.
  apply flat_map_all_nil. intros ev Hev. apply each in Hev.
  destruct ev; simpl in Hev; try discriminate; reflexivity.
Qed.

Lemma resolution_no_client : created_clients tr = [].
Proof.
  apply flat_map_all_nil. intros ev Hev. apply each in Hev.
  destruct ev; simpl in Hev; try discriminate; reflexivity.
Qed.

Lemma resolution_no_warning : warnings tr = [].
Proof.
  apply flat_map_all_nil. intros ev Hev. apply each in Hev.
  destruct ev; simpl in Hev; try discriminate; reflexivity.
Qed.

Lemma resolution_no_capture : captured_errors tr = [].
Proof.
  apply flat_map_all_nil. intros ev Hev. apply each in Hev.
  destruct ev; simpl in Hev; try discriminate; reflexivity.
Qed.

Lemma resolution_no_target : handler_targets tr = [].
Proof.
  apply flat_map_all_nil. intros ev Hev. apply each in Hev.
  destruct ev; simpl in Hev; try discriminate; reflexivity.
Qed.

Lemma resolution_no_error_log : error_logs tr = [].
Proof. apply forallb_filter_nil. exact Hres. Qed.


End ResolutionTrace.

(** ** The dispatch loop *)

Section LoopFacts.

Context {W : Type} (env : Env W).
Variables (resource operation : string) (handler : OperationDef W).

(** The [catch] block always throws: the caught [NodeApiError] itself,
    what serialising the caught error throws, or a new [NodeApiError] built
    from the caught error and the shim's lines. *)
Lemma item_catch_run (A : Type) (error : JsError) (w : W) :
  @item_catch W env A resource operation error w
  = let '(w', captured) := stopAndGetErrors env w in
    mkRun (EvStopAndGetErrors captured
             :: catch_logs resource operation error captured)
          w' (Throw (rethrown env error captured)).
Proof.
  unfold item_catch, bind, catcher_stop, catch_logs, rethrown, log_serialised,
    log, emit, throw, ret.
  destruct (stopAndGetErrors env w) as [w' captured]. simpl.
  destruct (Nat.ltb 0 (List.length captured)); destruct (isNodeApiError error);
    try reflexivity; destruct (stringifyThrows error); reflexivity.
Qed.

(** One iteration of the loop. *)
Lemma item_step_run (itemIndex : nat) (resultItems : list INodeExecutionData)
    (w : W) :
  try_catch (item_try env resource operation handler itemIndex resultItems)
            (item_catch env resource operation) w
  = let '(w1, r) := executeImapAction handler itemIndex (startErrorCatching env w) in
    match r with
    | Ok _ =>
        mkRun ([EvStartErrorCatching;
                EvExecuteImapAction resource operation itemIndex r]
                 ++ map (EvLog LogWarn) (warning_of resource operation r))
              w1 (Ok (resultItems ++ returned_items r))
    | Throw e =>
        let '(w2, captured) := stopAndGetErrors env w1 in
        mkRun ([EvStartErrorCatching;
                EvExecuteImapAction resource operation itemIndex r;
                EvStopAndGetErrors captured]
                 ++ catch_logs resource operation e captured)
              w2 (Throw (rethrown env e captured))
    end.
Proof.
  unfold try_catch at 1.
  unfold item_try, bind, catcher_start, handler_call. simpl.
  destruct (executeImapAction handler itemIndex (startErrorCatching env w))
    as [w1 [[items|]|e]]; simpl.
  - reflexivity.
  - rewrite app_nil_r. reflexivity.
  - rewrite item_catch_run.
    destruct (stopAndGetErrors env w1) as [w2 captured]. reflexivity.
Qed.

(** The loop, unrolled once. *)
Lemma for_items_step (remaining itemIndex : nat)
    (resultItems : list INodeExecutionData) (w : W) :
  for_items env resource operation handler (S remaining) itemIndex resultItems w
  = let '(w1, r) := executeImapAction handler itemIndex (startErrorCatching env w) in
    match r with
    | Ok _ =>
        let rest := for_items env resource operation handler remaining
                              (S itemIndex) (resultItems ++ returned_items r) w1 in
        mkRun (([EvStartErrorCatching;
                 EvExecuteImapAction resource operation itemIndex r]
                  ++ map (EvLog LogWarn) (warning_of resource operation r))
                 ++ events rest)
              (final rest) (outcome rest)
    | Throw e =>
        let '(w2, captured) := stopAndGetErrors env w1 in
        mkRun ([EvStartErrorCatching;
                EvExecuteImapAction resource operation itemIndex r;
                EvStopAndGetErrors captured]
                 ++ catch_logs resource operation e captured)
              w2 (Throw (rethrown env e captured))
    end.
Proof.
  simpl for_items. unfold bind. rewrite item_step_run.
  destruct (executeImapAction handler itemIndex (startErrorCatching env w))
    as [w1 [ret|e]].
  - reflexivity.
  - destruct (stopAndGetErrors env w1) as [w2 captured]. reflexivity.
Qed.

Lemma catch_logs_quiet (e : JsError) (captured : list string) :
  forallb loop_event (catch_logs resource operation e captured) = true.
Proof.
  unfold catch_logs.
  destruct (Nat.ltb 0 (List.length captured)); destruct (isNodeApiError e);
    try reflexivity; destruct (stringifyThrows e); reflexivity.
Qed.

Lemma catch_logs_no_handler (e : JsError) (captured : list string) :
  handler_calls (catch_logs resource operation e captured) = [] /\
  captured_errors (catch_logs resource operation e captured) = [] /\
  handler_targets (catch_logs resource operation e captured) = [].
Proof.
  unfold catch_logs.
  destruct (Nat.ltb 0 (List.length captured)); destruct (isNodeApiError e);
    destruct (stringifyThrows e); repeat split; reflexivity.
Qed.

Lemma warning_events_quiet (r : Result (option (list INodeExecutionData))) :
  forallb loop_event (map (EvLog LogWarn) (warning_of resource operation r)) = true.
Proof. destruct r as [[?|]|?]; reflexivity. Qed.

(** The loop produces loop events only. *)
Lemma for_items_events (remaining : nat) :
  forall itemIndex resultItems w,
    forallb loop_event
      (events (for_items env resource operation handler remaining itemIndex
                         resultItems w)) = true.
Proof.
  induction remaining as [|remaining IH]; intros itemIndex resultItems w.
  - reflexivity.
  - rewrite for_items_step.
    destruct (executeImapAction handler itemIndex (startErrorCatching env w))
      as [w1 [ret|e]].
    + cbn [outcome events final]. rewrite !forallb_app, IH, warning_events_quiet.
      reflexivity.
    + destruct (stopAndGetErrors env w1) as [w2 captured].
      cbn [outcome events final]. rewrite forallb_app, catch_logs_quiet.
      reflexivity.
Qed.

(** Every handler call of the loop goes to the one handler selected. *)
Lemma for_items_targets (remaining : nat) :
  forall itemIndex resultItems w rt,
    In rt (handler_targets
             (events (for_items env resource operation handler remaining
                                itemIndex resultItems w))) ->
    rt = (resource, operation).
Proof.
  induction remaining as [|remaining IH]; intros itemIndex resultItems w rt.
  - simpl. contradiction.
  - rewrite for_items_step.
    destruct (executeImapAction handler itemIndex (startErrorCatching env w))
      as [w1 [ret|e]].
    + cbn [outcome events final]. autorewrite with trace.
      rewrite !in_app_iff. intros [[H|H]|H].
      * simpl in H. destruct H as [H|[]]. symmetry. exact H.
      * destruct ret as [?|]; simpl in H; contradiction.
      * eapply IH. exact H.
    + destruct (stopAndGetErrors env w1) as [w2 captured].
      cbn [outcome events final]. autorewrite with trace. rewrite in_app_iff.
      destruct (catch_logs_no_handler e captured) as [_ [_ Hq]]. rewrite Hq.
      intros [H|[]]. simpl in H. destruct H as [H|[]]. symmetry. exact H.
Qed.

(** The loop either completes, having called the handler once for each
    item in index order, or stops at the first call that throws. *)
Lemma for_items_cases (remaining : nat) :
  forall itemIndex resultItems w,
    let r := for_items env resource operation handler remaining itemIndex
                       resultItems w in
    LoopCompleted resource operation remaining itemIndex resultItems
                  (events r) (outcome r)
    \/ LoopAborted env remaining itemIndex (events r) (outcome r).
Proof.
  induction remaining as [|remaining IH]; intros itemIndex resultItems w r.
  - left. exists []. subst r. simpl. rewrite app_nil_r. repeat split.
  - subst r. rewrite for_items_step.
    destruct (executeImapAction handler itemIndex (startErrorCatching env w))
      as [w1 [ret|e]].
    + cbn [outcome events final].
      set (tail := for_items env resource operation handler remaining
                             (S itemIndex) (resultItems ++ returned_items (Ok ret)) w1).
      assert (Hw : handler_calls (map (EvLog LogWarn)
                                      (warning_of resource operation (Ok ret))) = []
                   /\ captured_errors (map (EvLog LogWarn)
                                      (warning_of resource operation (Ok ret))) = []
                   /\ warnings (map (EvLog LogWarn)
                                      (warning_of resource operation (Ok ret)))
                      = warning_of resource operation (Ok ret)
                   /\ error_logs (map (EvLog LogWarn)
                                      (warning_of resource operation (Ok ret))) = []).
      { destruct ret as [?|]; repeat split. }
      destruct Hw as [Hw1 [Hw2 [Hw3 Hw4]]].
      destruct (IH (S itemIndex) (resultItems ++ returned_items (Ok ret)) w1)
        as [[returns [Hlen [Hcalls [Hout [Hcap [Hwarn Herr]]]]]]
           |[k [returns [e [captured [Hk [Hlen [Hcalls [Hout Hcap]]]]]]]]];
        fold tail in Hcalls, Hout, Hcap.
      * left. exists (ret :: returns). fold tail in Hwarn, Herr.
        autorewrite with trace.
        rewrite Hw1, Hw2, Hw3, Hw4, Hcalls, Hcap, Hwarn, Herr, Hout. simpl.
        rewrite <- app_assoc. repeat split.
        f_equal. exact Hlen.
      * right. exists (S k), (ret :: returns), e, captured.
        autorewrite with trace.
        rewrite Hw1, Hw2, Hcalls, Hcap, Hout. simpl.
        replace (itemIndex + S k) with (S (itemIndex + k)) by lia.
        repeat split; try lia.
    + destruct (stopAndGetErrors env w1) as [w2 captured].
      cbn [outcome events final].
      right. exists 0, [], e, captured.
      destruct (catch_logs_no_handler e captured) as [Hq1 [Hq2 _]].
      autorewrite with trace. rewrite Hq1, Hq2. simpl.
      rewrite Nat.add_0_r. repeat split; lia.
Qed.

End LoopFacts.

(** ** The phases of [execute] *)

Section ExecuteFacts.

Context {W : Type} (env : Env W).

(** Credential resolution calls the host only, on the first item. *)
Lemma resolveCredentials_events (w : W) :
  forallb resolution_event (events (resolveCredentials env w)) = true.
Proof.
  unfold resolveCredentials, credentialsFromInput, getImapCredentials, bind,
    param, inputData, host_call, throw, ret.
  cbn [outcome events final].
  destruct (getNodeParameter env "authentication" FIRST_ITEM_INDEX) as [a|e];
    [|reflexivity].
  destruct (String.eqb a CREDENTIALS_TYPE_FROM_INPUT).
  - cbn [outcome events final].
    destruct (Nat.eqb (List.length (getInputData env)) 0); [reflexivity|].
    cbn [outcome events final].
    destruct (getNodeParameter env "credentialsField" FIRST_ITEM_INDEX) as [f|e];
      [|reflexivity].
    destruct (nth_error (getInputData env) FIRST_ITEM_INDEX) as [first|];
      [|reflexivity].
    destruct (negb (truthy (lookup f (json first)))); [reflexivity|].
    destruct (negb (truthy (get (lookup f (json first)) "host"))
              || negb (truthy (get (lookup f (json first)) "user"))
              || negb (truthy (get (lookup f (json first)) "password")));
      reflexivity.
  - cbn [outcome events final].
    destruct (snd (storedCredentials env)); reflexivity.
Qed.

(** One [bind], without copying the continuation. *)
Lemma bind_cases {A B} (m : M W A) (f : A -> M W B) (w : W) :
  bind m f w
  = match outcome (m w) with
    | Ok a => prepend (events (m w)) (f a (final (m w)))
    | Throw e => mkRun (events (m w)) (final (m w)) (Throw e)
    end.
Proof. unfold bind, prepend. destruct (outcome (m w)); reflexivity. Qed.

(** The guarded block and its cleanup, path by path. *)
Lemma guarded_run (w : W) :
  try_catch (run_operation env) (cleanup env) w
  = match getNodeParameter env "resource" FIRST_ITEM_INDEX with
    | Throw e =>
        let '(w', s) := logout env w in
        mkRun [EvGetNodeParameter "resource" 0; EvLogout s; closed_with_error e]
              w' (Throw e)
    | Ok resource =>
        match getNodeParameter env "operation" FIRST_ITEM_INDEX with
        | Throw e =>
            let '(w', s) := logout env w in
            mkRun [EvGetNodeParameter "resource" 0;
                   EvGetNodeParameter "operation" 0;
                   EvLogout s; closed_with_error e]
                  w' (Throw e)
        | Ok operation =>
            match find_handler env resource operation with
            | None =>
                let e := NodeApiError (runtime env) (unknown_operation resource operation) None in
                let '(w', s) := logout env w in
                mkRun [EvGetNodeParameter "resource" 0;
                       EvGetNodeParameter "operation" 0;
                       EvLog LogError (unknown_operation resource operation);
                       EvLogout s; closed_with_error e]
                      w' (Throw e)
            | Some handler =>
                let loop := for_items env resource operation handler
                                      (List.length (getInputData env)) 0 [] w in
                let '(w', s) := logout env (final loop) in
                match outcome loop with
                | Ok resultItems =>
                    mkRun ([EvGetNodeParameter "resource" 0;
                            EvGetNodeParameter "operation" 0;
                            EvGetInputData]
                             ++ events loop
                             ++ [EvLogout s; EvLog LogInfo "IMAP connection closed"])
                          w' (Ok [resultItems])
                | Throw e =>
                    mkRun ([EvGetNodeParameter "resource" 0;
                            EvGetNodeParameter "operation" 0;
                            EvGetInputData]
                             ++ events loop
                             ++ [EvLogout s; closed_with_error e])
                          w' (Throw e)
                end
            end
        end
    end.
Proof.
  assert (Hcleanup : forall (e : JsError) (w0 : W),
             @cleanup W env (list (list INodeExecutionData)) e w0
             = let '(w', s) := logout env w0 in
               mkRun [EvLogout s; closed_with_error e] w' (Throw e)).
  { intros e w0. unfold cleanup, bind, client_logout, log, emit, throw,
      closed_with_error.
    destruct (logout env w0) as [w' s]. reflexivity. }
  assert (Hclose : forall (resultItems : list INodeExecutionData) (w0 : W),
             bind (client_logout env)
                  (fun _ => bind (log LogInfo "IMAP connection closed")
                                 (fun _ => ret [resultItems])) w0
             = let '(w', s) := logout env w0 in
               mkRun [EvLogout s; EvLog LogInfo "IMAP connection closed"] w'
                     (Ok [resultItems])).
  { intros resultItems w0. unfold bind, client_logout, log, emit, ret.
    destruct (logout env w0) as [w' s]. reflexivity. }
  assert (Hrun :
    run_operation env w
    = match getNodeParameter env "resource" FIRST_ITEM_INDEX with
      | Throw e => mkRun [EvGetNodeParameter "resource" 0] w (Throw e)
      | Ok resource =>
          match getNodeParameter env "operation" FIRST_ITEM_INDEX with
          | Throw e =>
              mkRun [EvGetNodeParameter "resource" 0;
                     EvGetNodeParameter "operation" 0] w (Throw e)
          | Ok operation =>
              match find_handler env resource operation with
              | None =>
                  mkRun [EvGetNodeParameter "resource" 0;
                         EvGetNodeParameter "operation" 0;
                         EvLog LogError (unknown_operation resource operation)]
                        w (Throw (NodeApiError (runtime env) (unknown_operation resource operation)
                                               None))
              | Some handler =>
                  let loop := for_items env resource operation handler
                                        (List.length (getInputData env)) 0 [] w in
                  match outcome loop with
                  | Ok resultItems =>
                      let '(w', s) := logout env (final loop) in
                      mkRun ([EvGetNodeParameter "resource" 0;
                              EvGetNodeParameter "operation" 0;
                              EvGetInputData]
                               ++ events loop
                               ++ [EvLogout s; EvLog LogInfo "IMAP connection closed"])
                            w' (Ok [resultItems])
                  | Throw e =>
                      mkRun ([EvGetNodeParameter "resource" 0;
                              EvGetNodeParameter "operation" 0;
                              EvGetInputData] ++ events loop)
                            (final loop) (Throw e)
                  end
              end
          end
      end).
  { unfold run_operation.
    rewrite bind_cases. unfold param, host_call. cbn [outcome events final].
    destruct (getNodeParameter env "resource" FIRST_ITEM_INDEX) as [resource|e];
      [|reflexivity].
    rewrite bind_cases. cbn [outcome events final].
    destruct (getNodeParameter env "operation" FIRST_ITEM_INDEX) as [operation|e];
      [|reflexivity].
    rewrite bind_cases.
    destruct (find_handler env resource operation) as [handler|].
    - rewrite bind_cases. unfold inputData, host_call. cbn [outcome events final].
      cbv zeta.
      destruct (for_items env resource operation handler
                          (List.length (getInputData env)) 0 [] w)
        as [tr wl [resultItems|e]]; unfold prepend at 3 4 5 6;
        cbn [outcome events final].
      + rewrite Hclose. destruct (logout env wl) as [w' s].
        unfold prepend. cbn [outcome events final].
        simpl. rewrite <- ?app_assoc. reflexivity.
      + reflexivity.
    - rewrite bind_cases. unfold log, emit, throw, prepend. reflexivity. }
  unfold try_catch. rewrite Hrun. clear Hrun.
  destruct (getNodeParameter env "resource" FIRST_ITEM_INDEX) as [resource|e].
  2:{ cbn [outcome events final]. rewrite Hcleanup.
      destruct (logout env w) as [w' s]. reflexivity. }
  destruct (getNodeParameter env "operation" FIRST_ITEM_INDEX) as [operation|e].
  2:{ cbn [outcome events final]. rewrite Hcleanup.
      destruct (logout env w) as [w' s]. reflexivity. }
  destruct (find_handler env resource operation) as [handler|].
  - cbv zeta.
    destruct (for_items env resource operation handler
                        (List.length (getInputData env)) 0 [] w)
      as [tr wl [resultItems|e]]; cbn [outcome events final].
    + destruct (logout env wl) as [w' s]. reflexivity.
    + rewrite Hcleanup. destruct (logout env wl) as [w' s].
      cbn [outcome events final]. simpl. rewrite <- ?app_assoc. reflexivity.
  - cbn [outcome events final]. rewrite Hcleanup.
    destruct (logout env w) as [w' s]. reflexivity.
Qed.

(** [execute], phase by phase. *)
Lemma execute_run (w : W) :
  execute env w
  = let r0 := resolveCredentials env w in
    match outcome r0 with
    | Throw e => mkRun (events r0) (final r0) (Throw e)
    | Ok credentials =>
        let '(w1, created) :=
          createImapClient env credentials (debug_logging env) (final r0) in
        match created with
        | Throw e =>
            mkRun (events r0 ++ [EvCreateImapClient credentials (debug_logging env)])
                  w1 (Throw e)
        | Ok _ =>
            let '(w2, connected) := connect env w1 in
            match connected with
            | Throw e =>
                mkRun (events r0
                         ++ [EvCreateImapClient credentials (debug_logging env);
                             EvConnect (Throw e);
                             EvLog LogError ("Connection failed: "
                                               +++ interpolate (message e))])
                      w2 (Throw (connection_error env e))
            | Ok u =>
                let r := try_catch (run_operation env) (cleanup env) w2 in
                mkRun (events r0
                         ++ [EvCreateImapClient credentials (debug_logging env);
                             EvConnect (Ok u)]
                         ++ events r)
                      (final r) (outcome r)
            end
        end
    end.
Proof.
  unfold execute. fold (debug_logging env).
  set (guarded := try_catch (run_operation env) (cleanup env)).
  unfold bind, client_create, connect_or_fail, try_catch, client_connect, log,
    emit, throw, connection_error.
  destruct (resolveCredentials env w) as [tr0 w0 [credentials|e]];
    cbn [outcome events final]; [|reflexivity].
  destruct (createImapClient env credentials (debug_logging env) w0)
    as [w1 [[]|e]]; cbn [outcome events final]; [|reflexivity].
  destruct (connect env w1) as [w2 [[]|e]]; cbn [outcome events final];
    rewrite <- ?app_assoc; reflexivity.
Qed.

End ExecuteFacts.

(** ** Case analysis of an execution *)

(** Splits a goal about [execute env w] along the paths of the source:
    failed resolution, failed client creation, failed connection, failed
    parameter reads, unknown operation, completed or aborted loop. *)
Ltac execute_paths env w :=
  rewrite (execute_run env w);
  let Hres := fresh "Hres" in
  pose proof (resolveCredentials_events env w) as Hres;
  destruct (resolveCredentials env w) as [tr0 w0 [credentials|e0]];
  cbn [outcome events final] in *;
  [ destruct (createImapClient env credentials (debug_logging env) w0)
      as [w1 [[]|e1]] eqn:Hcreated;
    [ destruct (connect env w1) as [w2 [[]|e2]] eqn:Hconnected;
      [ rewrite (guarded_run env w2);
        destruct (getNodeParameter env "resource" FIRST_ITEM_INDEX)
          as [resource|e3] eqn:Hresource;
        [ destruct (getNodeParameter env "operation" FIRST_ITEM_INDEX)
            as [operation|e4] eqn:Hoperation;
          [ destruct (find_handler env resource operation) as [handler|] eqn:Hfind;
            [ let Hloop := fresh "Hloop" in
              let Hcases := fresh "Hcases" in
              let Htargets := fresh "Htargets" in
              pose proof (for_items_events env resource operation handler
                            (List.length (getInputData env)) 0 [] w2) as Hloop;
              pose proof (for_items_cases env resource operation handler
                            (List.length (getInputData env)) 0 [] w2) as Hcases;
              pose proof (for_items_targets env resource operation handler
                            (List.length (getInputData env)) 0 [] w2) as Htargets;
              cbv zeta in Hcases;
              destruct (for_items env resource operation handler
                          (List.length (getInputData env)) 0 [] w2)
                as [trl wl [resultItems|e5]];
              cbn [outcome events final] in *;
              destruct (logout env wl) as [w3 s]
            | cbv zeta; destruct (logout env w2) as [w3 s] ]
          | destruct (logout env w2) as [w3 s] ]
        | destruct (logout env w2) as [w3 s] ]
      | ]
    | ]
  | ];
  cbn [outcome events final] in *.

(** Normalises the projections of the trace of a path. *)
Ltac trace_facts :=
  autorewrite with trace;
  try match goal with
      | H : forallb resolution_event ?t = true |- _ =>
          rewrite ?(resolution_no_connect t H), ?(resolution_no_logout t H),
            ?(resolution_no_handler t H), ?(resolution_no_client t H),
            ?(resolution_no_warning t H), ?(resolution_no_error_log t H),
            ?(resolution_no_capture t H), ?(resolution_no_target t H)
      end;
  try match goal with
      | H : forallb loop_event ?t = true |- _ =>
          rewrite ?(loop_no_connect t H), ?(loop_no_logout t H),
            ?(loop_no_client t H), ?(loop_no_parameter t H),
            ?(loop_no_source t H), ?(loop_no_store t H)
      end;
  simpl.

(** An execution whose credentials resolve and whose client is created
    calls [connect] once. *)
Lemma connect_called_once (W : Type) (env : Env W) (w : W) :
  forall c w',
    outcome (resolveCredentials env w) = Ok c ->
    createImapClient env c (debug_logging env)
                     (final (resolveCredentials env w)) = (w', Ok tt) ->
    List.length (connect_calls (events (execute env w))) = 1.
Proof.
  execute_paths env w; trace_facts; intros c w' Hc Hcr;
    inversion Hc; subst c;
    try (match goal with
         | H : createImapClient _ _ _ _ = (_, Throw _) |- _ =>
             rewrite H in Hcr; discriminate
         end);
    reflexivity.
Qed.

(** * The claims *)

(** ** C1: connection lifecycle *)

(** C1, as stated, fails: an execution that takes its credentials from the
    upstream item and is given no item throws before [client.connect] is
    called at all (no connect call, no logout call), and an execution whose
    [connect] is refused makes its one connect call and throws without
    calling [client.logout]. *)
Lemma connection_lifecycle_counterexample :
  (connect_calls (events (execute env_no_items 0)) = [] /\
   logout_calls (events (execute env_no_items 0)) = [] /\
   is_ok (outcome (execute env_no_items 0)) = false)
  /\
  (connect_calls (events (execute env_refused 0)) = [Throw example_error] /\
   logout_calls (events (execute env_refused 0)) = [] /\
   outcome (execute env_refused 0) = Throw (connection_error env_refused example_error)).
Proof. repeat split. Qed.

(** C1, amended: [client.connect] is called at most once in an execution.
    An execution that never calls it, or whose call fails, throws without
    calling [client.logout] and without any handler call.  When the call
    succeeds, [client.logout] is called exactly once, after everything else
    but the closing log entry, on the success path and on every failure
    path; every successful execution connected; and [client.connect] is
    called exactly once whenever the credentials resolve and the client is
    created. *)
Theorem connection_lifecycle (W : Type) (env : Env W) (w : W) :
  let r := execute env w in
  List.length (connect_calls (events r)) <= 1
  /\ (connect_calls (events r) = [] ->
      logout_calls (events r) = [] /\ handler_calls (events r) = [] /\
      exists e, outcome r = Throw e)
  /\ (forall e, connect_calls (events r) = [Throw e] ->
      logout_calls (events r) = [] /\ handler_calls (events r) = [] /\
      outcome r = Throw (connection_error env e))
  /\ (connect_calls (events r) = [Ok tt] ->
      exists body s level text,
        events r = body ++ [EvLogout s; EvLog level text] /\
        logout_calls body = [])
  /\ (forall branches, outcome r = Ok branches ->
      connect_calls (events r) = [Ok tt])
  /\ (forall credentials w1,
        outcome (resolveCredentials env w) = Ok credentials ->
        createImapClient env credentials (debug_logging env)
                         (final (resolveCredentials env w)) = (w1, Ok tt) ->
        List.length (connect_calls (events r)) = 1).
Proof.
  intros r. subst r.
  cut (let r := execute env w in
       List.length (connect_calls (events r)) <= 1
       /\ (connect_calls (events r) = [] ->
           logout_calls (events r) = [] /\ handler_calls (events r) = [] /\
           exists e, outcome r = Throw e)
       /\ (forall e, connect_calls (events r) = [Throw e] ->
           logout_calls (events r) = [] /\ handler_calls (events r) = [] /\
           outcome r = Throw (connection_error env e))
       /\ (connect_calls (events r) = [Ok tt] ->
           exists body s level text,
             events r = body ++ [EvLogout s; EvLog level text] /\
             logout_calls body = [])
       /\ (forall branches, outcome r = Ok branches ->
           connect_calls (events r) = [Ok tt])).
  { cbv zeta. intros [H1 [H2 [H3 [H4 H5]]]].
    repeat (split; [assumption|]).
    intros c w' Hc Hcr. exact (connect_called_once W env w c w' Hc Hcr). }
  cbv zeta.
  execute_paths env w; trace_facts.
  - (* completed loop *)
    split; [lia|]. split; [discriminate|]. split; [discriminate|].
    split; [|reflexivity]. intros _.
    exists (tr0 ++ [EvCreateImapClient credentials (debug_logging env);
                    EvConnect (Ok tt); EvGetNodeParameter "resource" 0;
                    EvGetNodeParameter "operation" 0; EvGetInputData] ++ trl),
      s, LogInfo, "IMAP connection closed".
    split.
    + rewrite <- !app_assoc. reflexivity.
    + trace_facts. reflexivity.
  - (* aborted loop *)
    split; [lia|]. split; [discriminate|]. split; [discriminate|].
    split; [|discriminate]. intros _.
    exists (tr0 ++ [EvCreateImapClient credentials (debug_logging env);
                    EvConnect (Ok tt); EvGetNodeParameter "resource" 0;
                    EvGetNodeParameter "operation" 0; EvGetInputData] ++ trl),
      s, LogError, ("IMAP connection closed. Error: " +++ interpolate (message e5)).
    split.
    + rewrite <- !app_assoc. reflexivity.
    + trace_facts. reflexivity.
  - (* unknown operation *)
    split; [lia|]. split; [discriminate|]. split; [discriminate|].
    split; [|discriminate]. intros _.
    exists (tr0 ++ [EvCreateImapClient credentials (debug_logging env);
                    EvConnect (Ok tt); EvGetNodeParameter "resource" 0;
                    EvGetNodeParameter "operation" 0;
                    EvLog LogError (unknown_operation resource operation)]),
      s, LogError,
      ("IMAP connection closed. Error: "
         +++ interpolate (message (NodeApiError (runtime env) (unknown_operation resource operation)
                                                None))).
    split; [rewrite <- app_assoc; reflexivity|]. trace_facts. reflexivity.
  - (* the operation parameter cannot be read *)
    split; [lia|]. split; [discriminate|]. split; [discriminate|].
    split; [|discriminate]. intros _.
    exists (tr0 ++ [EvCreateImapClient credentials (debug_logging env);
                    EvConnect (Ok tt); EvGetNodeParameter "resource" 0;
                    EvGetNodeParameter "operation" 0]),
      s, LogError, ("IMAP connection closed. Error: " +++ interpolate (message e4)).
    split; [rewrite <- app_assoc; reflexivity|]. trace_facts. reflexivity.
  - (* the resource parameter cannot be read *)
    split; [lia|]. split; [discriminate|]. split; [discriminate|].
    split; [|discriminate]. intros _.
    exists (tr0 ++ [EvCreateImapClient credentials (debug_logging env);
                    EvConnect (Ok tt); EvGetNodeParameter "resource" 0]),
      s, LogError, ("IMAP connection closed. Error: " +++ interpolate (message e3)).
    split; [rewrite <- app_assoc; reflexivity|]. trace_facts. reflexivity.
  - (* connect fails *)
    split; [lia|]. split; [discriminate|].
    split; [|split; discriminate].
    intros e He. inversion He; subst. repeat split.
  - (* the client cannot be created *)
    split; [lia|]. split; [|split; [discriminate|split; discriminate]].
    intros _. repeat split. exists e1. reflexivity.
  - (* no credentials *)
    split; [lia|]. split; [|split; [discriminate|split; discriminate]].
    intros _. repeat split. exists e0. reflexivity.
Qed.

Lemma connection_lifecycle_witness :
  connect_calls (events (execute env_move 0)) = [Ok tt] /\
  exists body s level text,
    events (execute env_move 0) = body ++ [EvLogout s; EvLog level text] /\
    logout_calls body = [].
Proof.
  split; [reflexivity|].
  apply (proj1 (proj2 (proj2 (proj2 (connection_lifecycle nat env_move 0))))).
  reflexivity.
Defined.

(** ** Handler errors *)

Lemma no_throw_among_returns {A B} (l : list A) (returns : list B) (i : A)
    (e : JsError) :
  ~ In (i, Throw e) (combine l (map Ok returns)).
Proof.
  intros Hin. apply in_combine_r in Hin. apply in_map_iff in Hin.
  destruct Hin as [x [Hx _]]. discriminate.
Qed.

(** In the calls of an aborted loop, the call that threw is the last. *)
Lemma aborted_last {B} (k : nat) (returns : list B) (e : JsError) (i : nat)
    (e' : JsError) :
  In (i, Throw e') (combine (seq 0 k) (map Ok returns) ++ [(0 + k, @Throw B e)]) ->
  i = k /\ e' = e.
Proof.
  intros Hin. apply in_app_or in Hin. destruct Hin as [Hin|[Hin|[]]].
  - exfalso. exact (no_throw_among_returns _ _ _ _ Hin).
  - inversion Hin. split; reflexivity.
Qed.

Lemma aborted_indices {B} (k : nat) (returns : list B) (r : Result B) :
  List.length returns = k ->
  map fst (combine (seq 0 k) (map Ok returns) ++ [(0 + k, r)]) = seq 0 (S k).
Proof.
  intros Hlen. rewrite map_app, map_fst_combine_ok.
  - rewrite seq_S. reflexivity.
  - rewrite length_seq, length_map. symmetry. exact Hlen.
Qed.

(** An execution in which a handler call threw: the loop stopped there,
    the [catch] block asked the shim once and its error is the outcome. *)
Lemma handler_throw_aborts (W : Type) (env : Env W) (w : W) (i : nat) (e : JsError) :
  In (i, Throw e) (handler_calls (events (execute env w))) ->
  exists returns captured,
    List.length returns = i /\
    i < List.length (getInputData env) /\
    handler_calls (events (execute env w))
      = combine (seq 0 i) (map Ok returns) ++ [(i, Throw e)] /\
    captured_errors (events (execute env w)) = [captured] /\
    outcome (execute env w) = Throw (rethrown env e captured).
Proof.
  execute_paths env w; trace_facts; try contradiction.
  - (* completed loop: no call threw *)
    rewrite app_nil_r. intros Hin.
    destruct Hcases as [[returns [_ [Hcalls _]]]|[k [returns [x [c [_ [_ [_ [H _]]]]]]]]].
    + rewrite Hcalls in Hin. exfalso. exact (no_throw_among_returns _ _ _ _ Hin).
    + discriminate.
  - (* aborted loop *)
    rewrite !app_nil_r. intros Hin.
    destruct Hcases as [[returns [_ [_ [H _]]]]
                       |[k [returns [x [captured [Hk [Hlen [Hcalls [Hout Hcap]]]]]]]]].
    + discriminate.
    + rewrite Hcalls in Hin. destruct (aborted_last _ _ _ _ _ Hin) as [-> ->].
      exists returns, captured. rewrite Hcalls, Hcap.
      inversion Hout; subst. repeat split; assumption.
Qed.

Lemma is_empty_append (a b : string) :
  is_empty_string (a +++ b) = is_empty_string a && is_empty_string b.
Proof. destruct a; reflexivity. Qed.

(** The joined text of the captured lines is empty only when nothing, or a
    single empty line, was captured. *)
Lemma joined_errors_empty (captured : list string) :
  is_empty_string (joined_errors captured) = true <->
  captured = [] \/ captured = [EmptyString].
Proof.
  unfold joined_errors. destruct captured as [|l [|l' rest]]; simpl.
  - split; [left|]; reflexivity.
  - split.
    + intros H. right. destruct l; [reflexivity|discriminate].
    + intros [H|H]; [discriminate|]. inversion H. reflexivity.
  - rewrite is_empty_append. simpl. rewrite andb_false_r.
    split; [discriminate|]. intros [H|H]; discriminate.
Qed.

Lemma joined_errors_text (captured : list string) :
  (exists line, In line captured /\ line <> EmptyString) ->
  is_empty_string (joined_errors captured) = false.
Proof.
  intros [line [Hin Hline]].
  destruct (is_empty_string (joined_errors captured)) eqn:E; [|reflexivity].
  apply joined_errors_empty in E. destruct E as [->| ->].
  - contradiction.
  - destruct Hin as [<-|[]]. contradiction.
Qed.

Lemma str_or_else_not_empty (s : option string) (d : string) :
  is_empty_string d = false -> is_empty_string (str_or_else s d) = false.
Proof.
  intros Hd. unfold str_or_else. destruct s as [s|]; [|exact Hd].
  destruct (is_empty_string s) eqn:E; [exact Hd|exact E].
Qed.

(** The message the [catch] block gives to the error it builds: the first
    of the error's response text, the error's message and the joined captured
    lines that is not empty, or else ['Unknown error']. *)
Lemma errorMessage_of_cases (e : JsError) (text : string) :
  is_empty_string (errorMessage_of e text) = false /\
  (str_truthy (responseText e) = true ->
   Some (errorMessage_of e text) = responseText e) /\
  (str_truthy (responseText e) = false -> str_truthy (message e) = true ->
   Some (errorMessage_of e text) = message e) /\
  (str_truthy (responseText e) = false -> str_truthy (message e) = false ->
   errorMessage_of e text
   = if is_empty_string text then "Unknown error" else text).
Proof.
  unfold errorMessage_of, str_or, str_truthy, interpolate.
  destruct (responseText e) as [rt|]; destruct (message e) as [m|];
    try destruct (is_empty_string rt) eqn:Ert;
    try destruct (is_empty_string m) eqn:Em;
    destruct (is_empty_string text) eqn:Et;
    repeat (progress (simpl; rewrite ?Ert, ?Em, ?Et));
    repeat split; intros; try discriminate; try reflexivity; try assumption.
Qed.

(** The joined text of the captured lines: the lines in their order, each
    two separated by a comma, a space and a line feed. *)
Lemma joined_errors_lines :
  joined_errors [] = EmptyString /\
  (forall line, joined_errors [line] = line) /\
  (forall line line' rest,
     joined_errors (line :: line' :: rest)
     = line +++ ", " +++ newline +++ joined_errors (line' :: rest)).
Proof. repeat split. Qed.

(** ** C2: errors of a handler are re-raised as [NodeApiError] *)

(** C2, as the claim states it, fails where the shim captured a line that
    is empty: the handler throws an error that is not a [NodeApiError] for
    the second item, the shim returns the one line it captured, and the
    error thrown is a [NodeApiError] made without a description. *)
Lemma handler_error_rethrown_counterexample :
  In (1, Throw silent_error) (handler_calls (events (execute env_empty_line 0))) /\
  isNodeApiError silent_error = false /\
  captured_errors (events (execute env_empty_line 0)) = [[EmptyString]] /\
  outcome (execute env_empty_line 0)
  = Throw (NodeApiError (runtime env_empty_line) "Unknown error" None) /\
  (forall thrown, outcome (execute env_empty_line 0) = Throw thrown ->
                  description thrown = None).
Proof.
  split; [vm_compute; right; left; reflexivity|].
  split; [reflexivity|]. split; [reflexivity|]. split; [reflexivity|].
  intros thrown H. vm_compute in H. inversion H. reflexivity.
Qed.

(** C2, amended: when a handler call throws [e], the [catch] block of the
    loop asks the shim once for the lines it captured.  A [NodeApiError] of
    the handler is thrown again as it is, whatever the shim captured.  Any
    other error, if [JSON.stringify] returns for it, is replaced by the
    [NodeApiError] the host makes of a message that is not empty (the
    error's response text, else its message, else the joined captured
    lines, else ['Unknown error']) and of a description that is there
    exactly when the joined text of the captured lines is not empty, that
    is unless the shim captured nothing or one empty line: the heading
    followed by the captured lines, in their order, separated by [", \n"]. *)
Theorem handler_error_rethrown (W : Type) (env : Env W) (w : W) (i : nat)
    (e : JsError) :
  In (i, Throw e) (handler_calls (events (execute env w))) ->
  exists captured,
    captured_errors (events (execute env w)) = [captured] /\
    (isNodeApiError e = true -> outcome (execute env w) = Throw e) /\
    (isNodeApiError e = false -> stringifyThrows e = None ->
     exists text descr,
       outcome (execute env w) = Throw (NodeApiError (runtime env) text descr) /\
       is_empty_string text = false /\
       (str_truthy (responseText e) = true -> Some text = responseText e) /\
       (str_truthy (responseText e) = false -> str_truthy (message e) = true ->
        Some text = message e) /\
       (str_truthy (responseText e) = false -> str_truthy (message e) = false ->
        text = if is_empty_string (joined_errors captured)
               then "Unknown error" else joined_errors captured) /\
       (captured = [] \/ captured = [EmptyString] -> descr = None) /\
       (captured <> [] -> captured <> [EmptyString] ->
        descr = Some ("The following errors were reported by the IMAP server: "
                        +++ newline +++ joined_errors captured))) /\
    joined_errors [] = EmptyString /\
    (forall line, joined_errors [line] = line) /\
    (forall line line' rest,
       joined_errors (line :: line' :: rest)
       = line +++ ", " +++ newline +++ joined_errors (line' :: rest)).
Proof.
  intros Hin.
  destruct (handler_throw_aborts W env w i e Hin)
    as [returns [captured [_ [_ [_ [Hcap Hout]]]]]].
  exists captured. split; [exact Hcap|].
  split; [|split; [|exact joined_errors_lines]].
  - intros Hclass. rewrite Hout. unfold rethrown. rewrite Hclass. reflexivity.
  - intros Hclass Hjson.
    exists (errorMessage_of e (joined_errors captured)),
           (errorDescription_of (joined_errors captured)).
    split.
    { rewrite Hout. unfold rethrown. rewrite Hclass, Hjson. reflexivity. }
    destruct (errorMessage_of_cases e (joined_errors captured))
      as [Hfull [Hrt [Hm Hlines]]].
    repeat (split; [assumption|]).
    unfold errorDescription_of. split.
    + intros Hnone. apply joined_errors_empty in Hnone. rewrite Hnone. reflexivity.
    + intros Hsome Hline.
      destruct (is_empty_string (joined_errors captured)) eqn:E; [|reflexivity].
      apply joined_errors_empty in E. destruct E; contradiction.
Qed.

Lemma handler_error_rethrown_witness :
  In (1, Throw silent_error) (handler_calls (events (execute env_move 0))) /\
  captured_errors (events (execute env_move 0))
  = [["NO Mailbox missing"; "BAD Command"]] /\
  outcome (execute env_move 0)
  = Throw (NodeApiError (runtime env_move)
             ("NO Mailbox missing, " +++ newline +++ "BAD Command")
             (Some ("The following errors were reported by the IMAP server: "
                      +++ newline +++ "NO Mailbox missing, " +++ newline
                      +++ "BAD Command"))).
Proof.
  assert (H : In (1, Throw silent_error)
                 (handler_calls (events (execute env_move 0)))).
  { vm_compute. right. left. reflexivity. }
  split; [exact H|].
  destruct (handler_error_rethrown nat env_move 0 1 silent_error H)
    as [captured [Hcap [_ [Hnew _]]]].
  assert (Hlines : captured = ["NO Mailbox missing"; "BAD Command"]).
  { vm_compute in Hcap. inversion Hcap. reflexivity. }
  subst captured. split; [reflexivity|].
  destruct (Hnew eq_refl eq_refl) as [text [descr [Hout [_ [_ [_ [Ht [_ Hd]]]]]]]].
  rewrite Hout, (Ht eq_refl eq_refl), Hd by discriminate. reflexivity.
Defined.

(** ** The first throw ends the loop (lines 220-264) *)

(** X20: when the handler call for item [i] throws, the handler was called for
    the items [0], ..., [i] and no other, once each and in this order (no
    call for a later item, no second call for item [i]), and the execution
    throws: the handler's own [NodeApiError], else what [JSON.stringify]
    throws for the error, else a new [NodeApiError]. *)
Theorem first_throw_ends_loop (W : Type) (env : Env W) (w : W) (i : nat)
    (e : JsError) :
  In (i, Throw e) (handler_calls (events (execute env w))) ->
  let calls := handler_calls (events (execute env w)) in
  map fst calls = seq 0 (S i)
  /\ (forall j r, In (j, r) calls -> j <= i)
  /\ count_occ Nat.eq_dec (map fst calls) i = 1
  /\ (forall j r, In (j, r) calls -> j < i -> exists returned, r = Ok returned)
  /\ i < List.length (getInputData env)
  /\ exists thrown,
       outcome (execute env w) = Throw thrown /\
       (isNodeApiError e = true -> thrown = e) /\
       (isNodeApiError e = false ->
        forall failure, stringifyThrows e = Some failure -> thrown = failure) /\
       (isNodeApiError e = false -> stringifyThrows e = None ->
        isNodeApiError thrown = true).
Proof.
  intros Hin calls.
  destruct (handler_throw_aborts W env w i e Hin)
    as [returns [captured [Hlen [Hi [Hcalls [_ Hout]]]]]].
  assert (Hfst : map fst calls = seq 0 (S i)).
  { subst calls. rewrite Hcalls. apply (aborted_indices i returns (Throw e) Hlen). }
  split; [exact Hfst|].
  split; [|split; [|split; [|split; [exact Hi|]]]].
  - intros j r Hj.
    assert (Hin' : In j (map fst calls)).
    { apply in_map_iff. exists (j, r). split; [reflexivity|exact Hj]. }
    rewrite Hfst in Hin'. apply in_seq in Hin'. lia.
  - rewrite Hfst. apply NoDup_count_occ'.
    + apply seq_NoDup.
    + apply in_seq. lia.
  - intros j r Hj Hlt. subst calls. rewrite Hcalls in Hj.
    apply in_app_or in Hj. destruct Hj as [Hj|[Hj|[]]].
    + apply in_combine_r in Hj. apply in_map_iff in Hj.
      destruct Hj as [returned [Hr _]]. exists returned. symmetry. exact Hr.
    + inversion Hj. lia.
  - exists (rethrown env e captured). split; [exact Hout|].
    unfold rethrown. destruct (isNodeApiError e).
    + split; [reflexivity|]. split; discriminate.
    + split; [discriminate|]. split.
      * intros _ failure ->. reflexivity.
      * intros _ ->. reflexivity.
Qed.

Lemma first_throw_ends_loop_witness :
  In (1, Throw silent_error) (handler_calls (events (execute env_move 0))) /\
  map fst (handler_calls (events (execute env_move 0))) = [0; 1] /\
  List.length (getInputData env_move) = 3.
Proof.
  assert (H : In (1, Throw silent_error)
                 (handler_calls (events (execute env_move 0)))).
  { vm_compute. right. left. reflexivity. }
  split; [exact H|].
  split; [|reflexivity].
  exact (proj1 (first_throw_ends_loop nat env_move 0 1 silent_error H)).
Defined.

(** ** C5: the error of the failed call

    The [catch] block serialises the caught error for the log (line 255)
    before it throws the error it has prepared (line 262), and
    [JSON.stringify] is not guarded. *)

(** C5 fails where the error of the handler cannot be serialised: the
    handler throws for the second of three items an error with a circular
    member, that is not a [NodeApiError].  The handler is called for the
    first two items and no more, and the execution throws the [TypeError]
    of [JSON.stringify] (line 255), which is neither the error of the
    handler nor a [NodeApiError] made of it. *)
Theorem unserialisable_error_not_propagated :
  map fst (handler_calls (events (execute env_copy 0))) = [0; 1] /\
  In (1, Throw circular_error) (handler_calls (events (execute env_copy 0))) /\
  outcome (execute env_copy 0)
  = Throw (TypeError "Converting circular structure to JSON") /\
  outcome (execute env_copy 0) <> Throw circular_error /\
  (forall thrown, outcome (execute env_copy 0) = Throw thrown ->
                  isNodeApiError thrown = false) /\
  error_logs (events (execute env_copy 0))
  = [EvLog LogError ("IMAP server reported errors: NO Mailbox missing");
     EvLog LogError (operation_of "email" "copy" +++ " failed: Socket closed");
     closed_with_error (TypeError "Converting circular structure to JSON")].
Proof.
  split; [reflexivity|].
  split; [vm_compute; right; left; reflexivity|].
  split; [reflexivity|].
  split; [vm_compute; discriminate|].
  split; [|reflexivity].
  intros thrown H. vm_compute in H. inversion H. reflexivity.
Qed.

(** ** Credential resolution *)

Section ResolutionFacts.

Context {W : Type} (env : Env W).

(** Resolution from the upstream item, path by path. *)
Lemma resolve_from_input (w : W) :
  getNodeParameter env "authentication" 0 = Ok CREDENTIALS_TYPE_FROM_INPUT ->
  resolveCredentials env w
  = match getInputData env with
    | [] =>
        mkRun [EvGetNodeParameter "authentication" 0; EvGetInputData] w
              (Throw (NodeApiError (runtime env) "No input items provided" None))
    | first :: _ =>
        match getNodeParameter env "credentialsField" 0 with
        | Throw e =>
            mkRun [EvGetNodeParameter "authentication" 0; EvGetInputData;
                   EvGetNodeParameter "credentialsField" 0] w (Throw e)
        | Ok field =>
            let inputCredentials := lookup field (json first) in
            mkRun [EvGetNodeParameter "authentication" 0; EvGetInputData;
                   EvGetNodeParameter "credentialsField" 0] w
              (if negb (truthy inputCredentials) then
                 Throw (NodeApiError (runtime env)
                          ("No credentials found in field "
                             +++ dquote +++ field +++ dquote) None)
               else if negb (truthy (get inputCredentials "host"))
                       || negb (truthy (get inputCredentials "user"))
                       || negb (truthy (get inputCredentials "password")) then
                 Throw (NodeApiError (runtime env)
                          "Credentials must contain at least host, user, and password fields"
                          None)
               else Ok (credentials_of_input inputCredentials))
        end
    end.
Proof.
  intros Hauth.
  unfold resolveCredentials, credentialsFromInput, bind, param, inputData,
    host_call, throw, ret, FIRST_ITEM_INDEX.
  cbn [outcome events final]. rewrite Hauth. cbn [outcome events final].
  rewrite String.eqb_refl. cbn [outcome events final].
  destruct (getInputData env) as [|first rest]; [reflexivity|].
  cbn [outcome events final List.length Nat.eqb nth_error].
  destruct (getNodeParameter env "credentialsField" 0) as [field|e];
    [|reflexivity].
  cbn [outcome events final].
  destruct (negb (truthy (lookup field (json first)))); [reflexivity|].
  destruct (negb (truthy (get (lookup field (json first)) "host"))
            || negb (truthy (get (lookup field (json first)) "user"))
            || negb (truthy (get (lookup field (json first)) "password")));
    reflexivity.
Qed.

(** Resolution through [getImapCredentials]. *)
Lemma resolve_from_store (w : W) (authentication : string) :
  getNodeParameter env "authentication" 0 = Ok authentication ->
  authentication <> CREDENTIALS_TYPE_FROM_INPUT ->
  resolveCredentials env w
  = mkRun [EvGetNodeParameter "authentication" 0;
           EvGetImapCredentials (fst (storedCredentials env))] w
          (snd (storedCredentials env)).
Proof.
  intros Hauth Hne. apply String.eqb_neq in Hne.
  unfold resolveCredentials, getImapCredentials, bind, param, host_call,
    FIRST_ITEM_INDEX.
  cbn [outcome events final]. rewrite Hauth. cbn [outcome events final].
  rewrite Hne. cbn [outcome events final].
  destruct (snd (storedCredentials env)); reflexivity.
Qed.

(** The client is created from the resolved credentials, and only then. *)
Lemma created_clients_execute (w : W) :
  created_clients (events (execute env w))
  = match outcome (resolveCredentials env w) with
    | Ok credentials => [credentials]
    | Throw _ => []
    end.
Proof.
  execute_paths env w; trace_facts; rewrite ?app_nil_r; reflexivity.
Qed.


(** An execution that resolves no credentials stops there. *)
Lemma execute_unresolved (w : W) (e : JsError) :
  outcome (resolveCredentials env w) = Throw e ->
  outcome (execute env w) = Throw e /\
  events (execute env w) = events (resolveCredentials env w).
Proof.
  intros H. rewrite (execute_run env w). cbv zeta. rewrite H.
  split; reflexivity.
Qed.

(** Credentials resolved from the upstream item are the record built
    from the named member of the first item. *)
Lemma resolved_from_input (w : W) (c : ImapCredentialsData) :
  getNodeParameter env "authentication" 0 = Ok CREDENTIALS_TYPE_FROM_INPUT ->
  outcome (resolveCredentials env w) = Ok c ->
  exists first field,
    nth_error (getInputData env) 0 = Some first /\
    getNodeParameter env "credentialsField" 0 = Ok field /\
    c = credentials_of_input (lookup field (json first)).
Proof.
  intros Hauth Hc. rewrite (resolve_from_input w Hauth) in Hc.
  destruct (getInputData env) as [|first rest]; [discriminate|].
  destruct (getNodeParameter env "credentialsField" 0) as [field|e];
    [|discriminate].
  exists first, field. split; [reflexivity|]. split; [reflexivity|].
  cbn [outcome] in Hc.
  destruct (negb (truthy (lookup field (json first)))); [discriminate|].
  destruct (negb (truthy (get (lookup field (json first)) "host"))
            || negb (truthy (get (lookup field (json first)) "user"))
            || negb (truthy (get (lookup field (json first)) "password")));
    [discriminate|].
  inversion Hc. reflexivity.
Qed.

(** Without the ['authentication'] parameter nothing is resolved. *)
Lemma unresolved_without_authentication (w : W) (e : JsError) :
  getNodeParameter env "authentication" 0 = Throw e ->
  outcome (resolveCredentials env w) = Throw e.
Proof.
  intros Hauth. unfold resolveCredentials, bind, param, host_call.
  cbn [outcome events final]. unfold FIRST_ITEM_INDEX. rewrite Hauth.
  reflexivity.
Qed.

End ResolutionFacts.

(** A member that a plain object does not have is read from its
    prototype. *)
Lemma lookup_absent (k : string) (fields : JsFields) :
  ~ In k (map fst fields) ->
  lookup k fields = if inherited k then JsBuiltin k else JsUndefined.
Proof.
  induction fields as [|[k' v] rest IH]; intros Hnot; simpl.
  - reflexivity.
  - destruct (String.eqb k k') eqn:E.
    + apply String.eqb_eq in E. exfalso. apply Hnot. left. symmetry. exact E.
    + apply IH. intros Hin. apply Hnot. right. exact Hin.
Qed.

(** None of the members of the credentials record is a name of
    [Object.prototype]. *)
Lemma credentials_fields_own (k : string) :
  In k ImapCredentialsData_fields -> inherited k = false.
Proof.
  intros Hk. repeat (destruct Hk as [<-|Hk]; [reflexivity|]). contradiction.
Qed.

(** ** C3: one source of credentials *)



(** ** C6: the members of the credentials record *)

(** C6: the record built from an upstream item has exactly the members
    host, port, user, password, tls and allowUnauthorizedCerts, in this
    order, so in an execution with ['fromInput'] authentication the client is
    created from such a record; and when the record [getImapCredentials]
    returns has these members, as its type says, so has every record a
    client is created from. *)
Theorem client_credentials_fields (W : Type) (env : Env W) (w : W) :
  (forall inputCredentials,
     map fst (credentials_of_input inputCredentials) = ImapCredentialsData_fields)
  /\ (getNodeParameter env "authentication" 0 = Ok CREDENTIALS_TYPE_FROM_INPUT ->
      forall c, In c (created_clients (events (execute env w))) ->
                map fst c = ImapCredentialsData_fields)
  /\ ((forall c, snd (storedCredentials env) = Ok c -> has_credentials_fields c) ->
      forall c, In c (created_clients (events (execute env w))) ->
                has_credentials_fields c).
Proof.
  split; [reflexivity|]. split.
  - intros Hauth c Hin. rewrite created_clients_execute in Hin.
    destruct (outcome (resolveCredentials env w)) as [c'|e] eqn:Hc;
      [|contradiction].
    destruct Hin as [<-|[]].
    destruct (resolved_from_input env w c' Hauth Hc) as [first [field [_ [_ ->]]]].
    reflexivity.
  - intros Htyped c Hin. rewrite created_clients_execute in Hin.
    destruct (outcome (resolveCredentials env w)) as [c'|e] eqn:Hc;
      [|contradiction].
    destruct Hin as [<-|[]].
    destruct (getNodeParameter env "authentication" 0) as [a|e] eqn:Hauth.
    + destruct (String.eqb a CREDENTIALS_TYPE_FROM_INPUT) eqn:E.
      * apply String.eqb_eq in E. subst a.
        destruct (resolved_from_input env w c' Hauth Hc)
          as [first [field [_ [_ ->]]]].
        intros k. reflexivity.
      * apply String.eqb_neq in E.
        rewrite (resolve_from_store env w a Hauth E) in Hc. cbn [outcome] in Hc.
        apply Htyped. exact Hc.
    + rewrite (unresolved_without_authentication env w e Hauth) in Hc.
      discriminate.
Qed.

Lemma stored_example_fields : has_credentials_fields stored_example.
Proof. intros k. reflexivity. Qed.

Lemma client_credentials_fields_witness :
  (forall c, snd (storedCredentials env_unknown) = Ok c -> has_credentials_fields c) /\
  In stored_example (created_clients (events (execute env_unknown 0))) /\
  has_credentials_fields stored_example.
Proof.
  assert (Htyped : forall c, snd (storedCredentials env_unknown) = Ok c ->
                             has_credentials_fields c).
  { intros c Hc. inversion Hc. exact stored_example_fields. }
  assert (Hin : In stored_example (created_clients (events (execute env_unknown 0)))).
  { left. reflexivity. }
  split; [exact Htyped|]. split; [exact Hin|].
  exact (proj2 (proj2 (client_credentials_fields nat env_unknown 0))
               Htyped stored_example Hin).
Defined.

(** ** C8: credentials of the upstream item are checked *)

(** C8: with ['fromInput'] authentication the execution throws a
    [NodeApiError], with neither a client created nor a connect call made,
    when there is no input item, when the member of the first item that the
    ['credentialsField'] parameter names is falsy, when the first item has no
    such member, and when the host, user or password of that member is falsy
    or missing.  A member the item does not have reads [undefined], so that
    the error is the one of a falsy member, unless the name is one of
    [Object.prototype]: then it reads a built-in function, which has no host,
    and the error is the one of a missing host.  When all of them are given,
    the client is created from the record of lines 176-183: host, user and
    password as given, port 993 when the port is missing (or falsy), tls true
    unless the value given is exactly [false], allowUnauthorizedCerts false
    unless the value given is exactly [true]. *)
Theorem input_credentials_checked (W : Type) (env : Env W) (w : W) :
  getNodeParameter env "authentication" 0 = Ok CREDENTIALS_TYPE_FROM_INPUT ->
  let r := execute env w in
  (getInputData env = [] ->
     outcome r = Throw (NodeApiError (runtime env) "No input items provided" None) /\
     created_clients (events r) = [] /\ connect_calls (events r) = [])
  /\ (forall first rest field,
        getInputData env = first :: rest ->
        getNodeParameter env "credentialsField" 0 = Ok field ->
        let inputCredentials := lookup field (json first) in
        (truthy inputCredentials = false ->
           outcome r = Throw (NodeApiError (runtime env)
                                ("No credentials found in field "
                                   +++ dquote +++ field +++ dquote) None) /\
           created_clients (events r) = [] /\ connect_calls (events r) = [])
        /\ (truthy inputCredentials = true ->
            truthy (get inputCredentials "host") = false \/
            truthy (get inputCredentials "user") = false \/
            truthy (get inputCredentials "password") = false ->
            outcome r = Throw (NodeApiError (runtime env)
                                 "Credentials must contain at least host, user, and password fields"
                                 None) /\
            created_clients (events r) = [] /\ connect_calls (events r) = [])
        /\ (truthy inputCredentials = true ->
            truthy (get inputCredentials "host") = true ->
            truthy (get inputCredentials "user") = true ->
            truthy (get inputCredentials "password") = true ->
            created_clients (events r) = [credentials_of_input inputCredentials])
        /\ (~ In field (map fst (json first)) ->
            outcome r
            = Throw (NodeApiError (runtime env)
                       (if inherited field
                        then "Credentials must contain at least host, user, and password fields"
                        else "No credentials found in field "
                               +++ dquote +++ field +++ dquote) None) /\
            created_clients (events r) = [] /\ connect_calls (events r) = []))
  /\ (forall inputCredentials,
        let c := credentials_of_input inputCredentials in
        lookup "host" c = get inputCredentials "host" /\
        lookup "user" c = get inputCredentials "user" /\
        lookup "password" c = get inputCredentials "password" /\
        (truthy (get inputCredentials "port") = false ->
         lookup "port" c = JsNumber 993) /\
        (truthy (get inputCredentials "port") = true ->
         lookup "port" c = get inputCredentials "port") /\
        (get inputCredentials "tls" = JsBool false -> lookup "tls" c = JsBool false) /\
        (get inputCredentials "tls" <> JsBool false -> lookup "tls" c = JsBool true) /\
        (get inputCredentials "allowUnauthorizedCerts" = JsBool true ->
         lookup "allowUnauthorizedCerts" c = JsBool true) /\
        (get inputCredentials "allowUnauthorizedCerts" <> JsBool true ->
         lookup "allowUnauthorizedCerts" c = JsBool false))
  /\ (forall fields k,
        get (JsObject fields) k = lookup k fields /\
        (forall v, lookup k ((k, v) :: fields) = v) /\
        (forall k' v, k <> k' -> lookup k ((k', v) :: fields) = lookup k fields) /\
        (~ In k (map fst fields) ->
         lookup k fields = if inherited k then JsBuiltin k else JsUndefined) /\
        (~ In k (map fst fields) -> In k ImapCredentialsData_fields ->
         get (JsObject fields) k = JsUndefined) /\
        (~ In "port" (map fst fields) ->
         lookup "port" (credentials_of_input (JsObject fields)) = JsNumber 993) /\
        (~ In "tls" (map fst fields) ->
         lookup "tls" (credentials_of_input (JsObject fields)) = JsBool true) /\
        (~ In "allowUnauthorizedCerts" (map fst fields) ->
         lookup "allowUnauthorizedCerts" (credentials_of_input (JsObject fields))
         = JsBool false)).
Proof.
  intros Hauth r.
  assert (Hrun := resolve_from_input env w Hauth).
  assert (Hcreated := created_clients_execute env w). fold r in Hcreated.
  assert (Hstop : forall e, outcome (resolveCredentials env w) = Throw e ->
                            forallb resolution_event
                                    (events (resolveCredentials env w)) = true ->
                            outcome r = Throw e /\ created_clients (events r) = []
                            /\ connect_calls (events r) = []).
  { intros e He Hq. destruct (execute_unresolved env w e He) as [Ho Hev].
    subst r. rewrite Ho, Hev.
    rewrite (resolution_no_client _ Hq), (resolution_no_connect _ Hq).
    repeat split. }
  assert (Hq := resolveCredentials_events env w).
  split; [|split; [|split]].
  - intros Hitems. rewrite Hitems in Hrun. apply Hstop; [|exact Hq].
    rewrite Hrun. reflexivity.
  - intros first rest field Hitems Hfield inputCredentials.
    rewrite Hitems, Hfield in Hrun. cbv zeta in Hrun.
    fold inputCredentials in Hrun.
    split; [|split; [|split]].
    + intros Hfalsy. apply Hstop; [|exact Hq].
      rewrite Hrun. cbn [outcome]. rewrite Hfalsy. reflexivity.
    + intros Htruthy Hmissing. apply Hstop; [|exact Hq].
      rewrite Hrun. cbn [outcome]. rewrite Htruthy. cbn [negb].
      destruct Hmissing as [H|[H|H]]; rewrite H; cbn [negb orb];
        rewrite ?orb_true_r; reflexivity.
    + intros Htruthy Hhost Huser Hpassword. rewrite Hcreated, Hrun.
      cbn [outcome]. rewrite Htruthy, Hhost, Huser, Hpassword. reflexivity.
    + intros Hnot. apply Hstop; [|exact Hq].
      rewrite Hrun. cbn [outcome]. subst inputCredentials.
      rewrite (lookup_absent field (json first) Hnot).
      destruct (inherited field); reflexivity.
  - intros inputCredentials c. subst c. unfold credentials_of_input, js_or.
    cbn [lookup String.eqb Ascii.eqb Bool.eqb].
    repeat split.
    + intros H. rewrite H. reflexivity.
    + intros H. rewrite H. reflexivity.
    + intros H. rewrite H. reflexivity.
    + intros H. destruct (get inputCredentials "tls") as [| |[|]| | | | |];
        try reflexivity. contradiction H. reflexivity.
    + intros H. rewrite H. reflexivity.
    + intros H.
      destruct (get inputCredentials "allowUnauthorizedCerts") as [| |[|]| | | | |];
        try reflexivity. contradiction H. reflexivity.
  - intros fields k.
    assert (Hmember : ~ In k (map fst fields) -> In k ImapCredentialsData_fields ->
                      get (JsObject fields) k = JsUndefined).
    { intros Hnot Hk. cbn [get]. rewrite (lookup_absent k fields Hnot).
      rewrite (credentials_fields_own k Hk). reflexivity. }
    split; [reflexivity|]. split.
    { intros v. cbn [lookup]. rewrite String.eqb_refl. reflexivity. }
    split.
    { intros k' v Hne. cbn [lookup]. apply String.eqb_neq in Hne. rewrite Hne.
      reflexivity. }
    split; [apply lookup_absent|]. split; [exact Hmember|].
    unfold credentials_of_input, js_or.
    cbn [lookup String.eqb Ascii.eqb Bool.eqb get].
    split; [|split]; intros Hnot; rewrite (lookup_absent _ fields Hnot);
      reflexivity.
Qed.

Lemma input_credentials_checked_witness :
  getNodeParameter env_no_items "authentication" 0 = Ok CREDENTIALS_TYPE_FROM_INPUT /\
  (getInputData env_no_items = [] /\
   outcome (execute env_no_items 0)
     = Throw (NodeApiError (runtime env_no_items) "No input items provided" None) /\
   created_clients (events (execute env_no_items 0)) = [] /\
   connect_calls (events (execute env_no_items 0)) = []) /\
  (created_clients (events (execute env_list 0))
   = [[("host", JsString "imap.example.org"); ("port", JsNumber 993);
       ("user", JsString "alice"); ("password", JsString "secret");
       ("tls", JsBool false); ("allowUnauthorizedCerts", JsBool false)]]) /\
  (created_clients (events (execute env_port 0))
   = [[("host", JsString "mail.example.org"); ("port", JsNumber 143);
       ("user", JsString "bob"); ("password", JsString "hunter2");
       ("tls", JsBool true); ("allowUnauthorizedCerts", JsBool true)]]) /\
  (outcome (execute env_no_password 0)
     = Throw (NodeApiError (runtime env_no_password)
                "Credentials must contain at least host, user, and password fields"
                None) /\
   created_clients (events (execute env_no_password 0)) = [] /\
   connect_calls (events (execute env_no_password 0)) = []) /\
  (outcome (execute (with_parameter env_list "credentialsField" "login") 0)
     = Throw (NodeApiError (runtime env_list)
                ("No credentials found in field " +++ dquote +++ "login" +++ dquote)
                None) /\
   created_clients (events (execute (with_parameter env_list "credentialsField"
                                                    "login") 0)) = [] /\
   connect_calls (events (execute (with_parameter env_list "credentialsField"
                                                  "login") 0)) = []) /\
  (outcome (execute (with_parameter env_list "credentialsField" "toString") 0)
     = Throw (NodeApiError (runtime env_list)
                "Credentials must contain at least host, user, and password fields"
                None) /\
   created_clients (events (execute (with_parameter env_list "credentialsField"
                                                    "toString") 0)) = [] /\
   connect_calls (events (execute (with_parameter env_list "credentialsField"
                                                  "toString") 0)) = []).
Proof.
  split; [reflexivity|].
  split.
  { split; [reflexivity|].
    exact (proj1 (input_credentials_checked nat env_no_items 0 eq_refl) eq_refl). }
  split.
  { exact (proj1 (proj2 (proj2
             (proj1 (proj2 (input_credentials_checked nat env_list 0 eq_refl))
                    (example_item 1) [example_item 2; example_item 3]
                    "credentials" eq_refl eq_refl)))
             eq_refl eq_refl eq_refl eq_refl). }
  split.
  { exact (proj1 (proj2 (proj2
             (proj1 (proj2 (input_credentials_checked nat env_port 0 eq_refl))
                    port_item [] "credentials" eq_refl eq_refl)))
             eq_refl eq_refl eq_refl eq_refl). }
  split.
  { exact (proj1 (proj2
             (proj1 (proj2 (input_credentials_checked nat env_no_password 0 eq_refl))
                    no_password_item [] "credentials" eq_refl eq_refl))
             eq_refl (or_intror (or_intror eq_refl))). }
  split.
  { assert (Hnot : ~ In "login" (map fst (json (example_item 1)))).
    { simpl. intros [H|[H|[]]]; discriminate. }
    exact (proj2 (proj2 (proj2
             (proj1 (proj2 (input_credentials_checked nat
                              (with_parameter env_list "credentialsField" "login")
                              0 eq_refl))
                    (example_item 1) [example_item 2; example_item 3]
                    "login" eq_refl eq_refl))) Hnot). }
  { assert (Hnot : ~ In "toString" (map fst (json (example_item 1)))).
    { simpl. intros [H|[H|[]]]; discriminate. }
    exact (proj2 (proj2 (proj2
             (proj1 (proj2 (input_credentials_checked nat
                              (with_parameter env_list "credentialsField" "toString")
                              0 eq_refl))
                    (example_item 1) [example_item 2; example_item 3]
                    "toString" eq_refl eq_refl))) Hnot). }
Defined.

(** ** The dispatch, seen from [execute] *)

Section DispatchFacts.

Context {W : Type} (env : Env W).

(** The calls of the loop are the sequential calls on the shared client. *)
Lemma for_items_sequential (resource operation : string)
    (handler : OperationDef W) (remaining : nat) :
  forall itemIndex resultItems w,
    handler_calls (events (for_items env resource operation handler remaining
                                     itemIndex resultItems w))
    = sequential_calls env handler remaining itemIndex w.
Proof.
  induction remaining as [|remaining IH]; intros itemIndex resultItems w.
  - reflexivity.
  - rewrite for_items_step. simpl sequential_calls.
    destruct (executeImapAction handler itemIndex (startErrorCatching env w))
      as [w1 [ret|e]].
    + cbn [outcome events final]. autorewrite with trace. rewrite IH.
      destruct ret as [?|]; reflexivity.
    + destruct (stopAndGetErrors env w1) as [w2 captured].
      cbn [outcome events final]. autorewrite with trace.
      destruct (catch_logs_no_handler resource operation e captured) as [-> _].
      reflexivity.
Qed.

(** An execution that connects continues with the guarded block. *)
Lemma execute_connected (w w2 : W) :
  state_after_connect env w = Some w2 ->
  handler_calls (events (execute env w))
    = handler_calls (events (try_catch (run_operation env) (cleanup env) w2))
  /\ outcome (execute env w)
     = outcome (try_catch (run_operation env) (cleanup env) w2).
Proof.
  unfold state_after_connect. rewrite (execute_run env w). cbv zeta.
  pose proof (resolveCredentials_events env w) as Hres.
  destruct (resolveCredentials env w) as [tr0 w0 [credentials|e0]];
    cbn [outcome events final]; [|discriminate].
  destruct (createImapClient env credentials (debug_logging env) w0)
    as [w1 [[]|e1]]; [|discriminate].
  destruct (connect env w1) as [w' [[]|e2]]; [|discriminate].
  intros H. inversion H; subst w'. cbn [outcome events final].
  cbn [outcome events final] in Hres.
  autorewrite with trace. rewrite (resolution_no_handler _ Hres).
  split; reflexivity.
Qed.

(** The guarded block with a known operation runs the loop. *)
Lemma guarded_dispatch (w : W) (resource operation : string)
    (handler : OperationDef W) :
  getNodeParameter env "resource" 0 = Ok resource ->
  getNodeParameter env "operation" 0 = Ok operation ->
  find_handler env resource operation = Some handler ->
  let loop := for_items env resource operation handler
                        (List.length (getInputData env)) 0 [] w in
  let r := try_catch (run_operation env) (cleanup env) w in
  handler_calls (events r) = handler_calls (events loop)
  /\ outcome r = match outcome loop with
                 | Ok resultItems => Ok [resultItems]
                 | Throw e => Throw e
                 end.
Proof.
  intros Hresource Hoperation Hfind loop r. subst r.
  rewrite guarded_run. unfold FIRST_ITEM_INDEX.
  rewrite Hresource, Hoperation, Hfind. cbv zeta. fold loop.
  pose proof (for_items_events env resource operation handler
                (List.length (getInputData env)) 0 [] w) as Hloop.
  fold loop in Hloop.
  destruct (logout env (final loop)) as [w' s].
  destruct (outcome loop); cbn [outcome events final];
    autorewrite with trace; simpl; rewrite app_nil_r; split; reflexivity.
Qed.


End DispatchFacts.

(** The calls of a completed loop. *)
Lemma completed_calls {B} (n : nat) (returns : list B) :
  List.length returns = n ->
  map fst (combine (seq 0 n) (map (@Ok B) returns)) = seq 0 n /\
  map snd (combine (seq 0 n) (map (@Ok B) returns)) = map Ok returns.
Proof.
  intros Hlen. split.
  - apply map_fst_combine_ok. rewrite length_seq, length_map. symmetry. exact Hlen.
  - apply map_snd_combine_ok. rewrite length_seq, length_map. symmetry. exact Hlen.
Qed.

(** Every handler call goes to the handler found for the resource and
    operation of the first item. *)
Lemma handler_targets_execute (W : Type) (env : Env W) (w : W)
    (target : string * string) :
  In target (handler_targets (events (execute env w))) ->
  getNodeParameter env "resource" 0 = Ok (fst target) /\
  getNodeParameter env "operation" 0 = Ok (snd target) /\
  exists handler, find_handler env (fst target) (snd target) = Some handler.
Proof.
  execute_paths env w; trace_facts; try contradiction.
  - rewrite app_nil_r. intros Hin. rewrite (Htargets target Hin).
    simpl. split; [exact Hresource|]. split; [exact Hoperation|].
    exists handler. exact Hfind.
  - rewrite app_nil_r. intros Hin. rewrite (Htargets target Hin).
    simpl. split; [exact Hresource|]. split; [exact Hoperation|].
    exists handler. exact Hfind.
Qed.

(** ** C4: one handler call per item, in order *)

(** C4: the handler calls of an execution are made for the items [0],
    [1], ..., [k-1], once each and in this order, all to the handler found
    for the resource and operation of the first item.  Once connected, with
    a known resource/operation pair, they are the sequential calls on the
    one shared client; when none of them throws there is one for every input
    item and the execution returns what the calls returned, appended in the
    order of the calls. *)
Theorem dispatch_in_order (W : Type) (env : Env W) (w : W) :
  let r := execute env w in
  let calls := handler_calls (events r) in
  let n := List.length (getInputData env) in
  (exists k, k <= n /\ map fst calls = seq 0 k)
  /\ (forall target, In target (handler_targets (events r)) ->
        getNodeParameter env "resource" 0 = Ok (fst target) /\
        getNodeParameter env "operation" 0 = Ok (snd target) /\
        exists handler, find_handler env (fst target) (snd target) = Some handler)
  /\ (forall w2 resource operation handler,
        state_after_connect env w = Some w2 ->
        getNodeParameter env "resource" 0 = Ok resource ->
        getNodeParameter env "operation" 0 = Ok operation ->
        find_handler env resource operation = Some handler ->
        calls = sequential_calls env handler n 0 w2 /\
        ((forall i e, ~ In (i, Throw e) calls) ->
         map fst calls = seq 0 n /\
         outcome r = Ok [flat_map returned_items (map snd calls)]))
  /\ (forall branches, outcome r = Ok branches ->
        map fst calls = seq 0 n /\
        branches = [flat_map returned_items (map snd calls)]).
Proof.
  intros r calls n. split; [|split; [|split]].
  - subst r calls n. execute_paths env w; trace_facts;
      try (exists 0; split; [lia|reflexivity]).
    + rewrite app_nil_r.
      destruct Hcases as [[returns [Hlen [Hcalls _]]]
                         |[k [returns [x [c [_ [_ [_ [H _]]]]]]]]]; [|discriminate].
      exists (List.length (getInputData env)). split; [lia|].
      rewrite Hcalls. apply (completed_calls _ _ Hlen).
    + rewrite app_nil_r.
      destruct Hcases as [[returns [_ [_ [H _]]]]
                         |[k [returns [x [c [Hk [Hlen [Hcalls _]]]]]]]]; [discriminate|].
      exists (S k). split; [lia|].
      rewrite Hcalls. apply (aborted_indices k returns (Throw x) Hlen).
  - intros target Hin. exact (handler_targets_execute W env w target Hin).
  - intros w2 resource operation handler Hstate Hresource Hoperation Hfind.
    destruct (execute_connected env w w2 Hstate) as [Hcalls Hout].
    destruct (guarded_dispatch env w2 resource operation handler
                               Hresource Hoperation Hfind) as [Hcalls' Hout'].
    fold r in Hout. fold r calls in Hcalls.
    assert (Hseq : calls = sequential_calls env handler n 0 w2).
    { rewrite Hcalls, Hcalls'. apply for_items_sequential. }
    split; [exact Hseq|]. intros Hnothrow.
    destruct (for_items_cases env resource operation handler n 0 [] w2)
      as [[returns [Hlen [Hloop [Hres _]]]]
         |[k [returns [x [c [_ [_ [Hloop _]]]]]]]].
    + fold n in Hcalls'. rewrite Hloop in Hcalls'. rewrite Hcalls' in Hcalls.
      rewrite Hout, Hout'. fold n. rewrite Hres, Hcalls.
      destruct (completed_calls n returns Hlen) as [-> ->].
      split; reflexivity.
    + exfalso. apply (Hnothrow (0 + k) x).
      rewrite Hcalls, Hcalls'. fold n. rewrite Hloop.
      apply in_or_app. right. left. reflexivity.
  - subst r calls n. execute_paths env w; trace_facts; try discriminate.
    rewrite app_nil_r. intros branches Hb. inversion Hb; subst branches.
    destruct Hcases as [[returns [Hlen [Hcalls [Hout _]]]]
                       |[k [returns [x [c [_ [_ [_ [H _]]]]]]]]]; [|discriminate].
    rewrite Hcalls. destruct (completed_calls _ returns Hlen) as [-> ->].
    inversion Hout. split; reflexivity.
Qed.

Lemma dispatch_in_order_witness :
  outcome (execute env_list 0)
    = Ok [[example_output 0 0; example_output 2 2]] /\
  map fst (handler_calls (events (execute env_list 0))) = [0; 1; 2] /\
  [[example_output 0 0; example_output 2 2]]
    = [flat_map returned_items
                (map snd (handler_calls (events (execute env_list 0))))].
Proof.
  assert (H : outcome (execute env_list 0)
              = Ok [[example_output 0 0; example_output 2 2]]) by reflexivity.
  split; [exact H|].
  exact (proj2 (proj2 (proj2 (dispatch_in_order nat env_list 0))) _ H).
Defined.

(** ** C9: the result of a successful execution *)

(** C9: a successful execution returns one branch, the items its handler
    calls returned, appended in the order of the calls.  No call threw; a
    call that returned nothing ([null]) adds no item and leaves one warning
    in the log, and these warnings are the only ones; no error is logged
    and the shim is never asked for captured lines. *)
Theorem successful_execution_result (W : Type) (env : Env W) (w : W)
    (branches : list (list INodeExecutionData)) :
  outcome (execute env w) = Ok branches ->
  let tr := events (execute env w) in
  List.length branches = 1
  /\ branches = [flat_map returned_items (map snd (handler_calls tr))]
  /\ returned_items (Ok None) = []
  /\ (forall i r, In (i, r) (handler_calls tr) -> exists returned, r = Ok returned)
  /\ (exists resource operation,
        getNodeParameter env "resource" 0 = Ok resource /\
        getNodeParameter env "operation" 0 = Ok operation /\
        warnings tr
        = flat_map (warning_of resource operation) (map snd (handler_calls tr)) /\
        forall i, In (i, Ok None) (handler_calls tr) ->
                  In (no_data_warning resource operation) (warnings tr))
  /\ error_logs tr = []
  /\ captured_errors tr = [].
Proof.
  intros Hok tr. subst tr. revert Hok.
  execute_paths env w; trace_facts; try discriminate.
  rewrite !app_nil_r. intros Hb. inversion Hb; subst branches.
  destruct Hcases as [[returns [Hlen [Hcalls [Hout [Hcap [Hwarn Herr]]]]]]
                     |[k [returns [x [c [_ [_ [_ [H _]]]]]]]]]; [|discriminate].
  rewrite Hcalls, Hcap, Hwarn, Herr.
  destruct (completed_calls _ returns Hlen) as [_ ->].
  inversion Hout.
  split; [reflexivity|]. split; [reflexivity|]. split; [reflexivity|].
  split; [|split; [|split; reflexivity]].
  - intros i r Hin. apply in_combine_r in Hin. apply in_map_iff in Hin.
    destruct Hin as [returned [Hr _]]. exists returned. symmetry. exact Hr.
  - exists resource, operation.
    split; [exact Hresource|]. split; [exact Hoperation|]. split; [reflexivity|].
    intros i Hin. apply in_combine_r in Hin.
    apply in_flat_map. exists (Ok None). split; [exact Hin|]. left. reflexivity.
Qed.

Lemma successful_execution_result_witness :
  outcome (execute env_list 0)
    = Ok [[example_output 0 0; example_output 2 2]] /\
  warnings (events (execute env_list 0)) = [no_data_warning "email" "list"] /\
  error_logs (events (execute env_list 0)) = [].
Proof.
  assert (H : outcome (execute env_list 0)
              = Ok [[example_output 0 0; example_output 2 2]]) by reflexivity.
  split; [exact H|].
  destruct (successful_execution_result nat env_list 0 _ H)
    as [_ [_ [_ [_ [_ [Herr _]]]]]].
  split; [reflexivity|exact Herr].
Defined.

(** ** C10: unknown operations *)



(** ** C7: the credential test *)

(** The credential test, path by path. *)
Lemma testImapCredentials_run (W : Type) (env : Env W)
    (credentials : ImapCredentialsData) (w : W) :
  testImapCredentials env credentials w
  = let '(w1, created) := createImapClient env credentials None w in
    match created with
    | Throw e =>
        mkRun [EvCreateImapClient credentials None] w1 (Ok (test_error e))
    | Ok _ =>
        let '(w2, connected) := connect env w1 in
        match connected with
        | Throw e =>
            mkRun [EvCreateImapClient credentials None; EvConnect (Throw e)]
                  w2 (Ok (test_error e))
        | Ok u =>
            let '(w3, s) := logout env w2 in
            mkRun [EvCreateImapClient credentials None; EvConnect (Ok u);
                   EvLogout s]
                  w3 (Ok test_ok)
        end
    end.
Proof.
  unfold testImapCredentials, bind, try_catch, client_create, client_connect,
    client_logout, ret, test_ok, test_error.
  destruct (createImapClient env credentials None w) as [w1 [[]|e]];
    cbn [outcome events final]; [|reflexivity].
  destruct (connect env w1) as [w2 [[]|e]]; cbn [outcome events final];
    [|reflexivity].
  destruct (logout env w2) as [w3 s]. reflexivity.
Qed.

(** C7, as stated, fails: the test answers ['OK'] although logging out
    failed.  [client.logout()] is not awaited, so the rejection of its
    promise never reaches the [catch] block. *)
Lemma credential_test_counterexample :
  outcome (testImapCredentials env_list stored_example 0)
    = Ok {| status := "OK"; test_message := Some "Success" |} /\
  logout_calls (events (testImapCredentials env_list stored_example 0))
    = [Rejected example_error].
Proof. split; reflexivity. Qed.

(** C7, amended: the credential test never throws.  It returns status
    ['OK'] with message ['Success'] if and only if creating the client and
    connecting succeed; [client.logout()] is then called, and however its
    promise settles the result is the same.  Otherwise it returns status
    ['Error'] with the message of the error that creating the client or
    connecting threw, and does not log out. *)
Theorem credential_test_result (W : Type) (env : Env W)
    (credentials : ImapCredentialsData) (w : W) :
  let r := testImapCredentials env credentials w in
  (exists result, outcome r = Ok result /\
                  (result = {| status := "OK"; test_message := Some "Success" |}
                   \/ exists e, result = {| status := "Error";
                                            test_message := message e |}))
  /\ (outcome r = Ok {| status := "OK"; test_message := Some "Success" |} <->
      exists w1 w2, createImapClient env credentials None w = (w1, Ok tt) /\
                    connect env w1 = (w2, Ok tt))
  /\ (forall w1 w2, createImapClient env credentials None w = (w1, Ok tt) ->
                    connect env w1 = (w2, Ok tt) ->
                    logout_calls (events r) = [snd (logout env w2)])
  /\ (forall w1 e, createImapClient env credentials None w = (w1, Throw e) ->
                   outcome r = Ok {| status := "Error"; test_message := message e |}
                   /\ connect_calls (events r) = []
                   /\ logout_calls (events r) = [])
  /\ (forall w1 w2 e, createImapClient env credentials None w = (w1, Ok tt) ->
                      connect env w1 = (w2, Throw e) ->
                      outcome r = Ok {| status := "Error";
                                        test_message := message e |}
                      /\ logout_calls (events r) = []).
Proof.
  intros r. subst r. rewrite testImapCredentials_run.
  destruct (createImapClient env credentials None w) as [w1 [[]|e]].
  - destruct (connect env w1) as [w2 [[]|e]] eqn:Hconnect.
    + destruct (logout env w2) as [w3 s] eqn:Hlogout. cbn [outcome events].
      split; [exists test_ok; split; [reflexivity|left; reflexivity]|].
      split; [split; [intros _; exists w1, w2; split; [reflexivity|exact Hconnect]
                     |reflexivity]|].
      split.
      * intros w1' w2' H1 H2. inversion H1; subst w1'.
        rewrite Hconnect in H2. inversion H2; subst w2'.
        rewrite Hlogout. reflexivity.
      * split.
        -- intros w1' e H. discriminate.
        -- intros w1' w2' e H1 H2. inversion H1; subst w1'.
           rewrite Hconnect in H2. discriminate.
    + cbn [outcome events].
      split; [exists (test_error e); split; [reflexivity|right; exists e; reflexivity]|].
      split; [split; [discriminate|]|].
      * intros [w1' [w2' [H1 H2]]]. inversion H1; subst w1'.
        rewrite Hconnect in H2. discriminate.
      * split.
        -- intros w1' w2' H1 H2. inversion H1; subst w1'.
           rewrite Hconnect in H2. discriminate.
        -- split.
           ++ intros w1' e' H. discriminate.
           ++ intros w1' w2' e' H1 H2. inversion H1; subst w1'.
              rewrite Hconnect in H2. inversion H2; subst.
              split; reflexivity.
  - cbn [outcome events].
    split; [exists (test_error e); split; [reflexivity|right; exists e; reflexivity]|].
    split; [split; [discriminate|]|].
    + intros [w1' [w2' [H1 _]]]. discriminate.
    + split; [intros w1' w2' H1; discriminate|].
      split.
      * intros w1' e' H. inversion H; subst. repeat split.
      * intros w1' w2' e' H1. discriminate.
Qed.

Lemma credential_test_result_witness :
  (exists w1 w2, createImapClient env_list stored_example None 0 = (w1, Ok tt) /\
                 connect env_list w1 = (w2, Ok tt)) /\
  outcome (testImapCredentials env_list stored_example 0)
    = Ok {| status := "OK"; test_message := Some "Success" |}.
Proof.
  assert (H : exists w1 w2,
             createImapClient env_list stored_example None 0 = (w1, Ok tt) /\
             connect env_list w1 = (w2, Ok tt)).
  { exists 0, 0. split; reflexivity. }
  split; [exact H|].
  exact (proj2 (proj1 (proj2 (credential_test_result nat env_list stored_example 0)))
               H).
Defined.

(** * Further properties of the node *)

(** ** The handler table (line 215) *)

Lemma unique_by_name {A} (name : A -> string) (l : list A) (x y : A) :
  NoDup (map name l) -> In x l -> In y l -> name x = name y -> x = y.
Proof.
  induction l as [|a l IH]; intros Hnd Hx Hy Hname; [contradiction|].
  simpl in Hnd. inversion Hnd as [|? ? Hnotin Hnd']; subst.
  destruct Hx as [->|Hx]; destruct Hy as [->|Hy].
  - reflexivity.
  - exfalso. apply Hnotin. rewrite Hname. apply in_map. exact Hy.
  - exfalso. apply Hnotin. rewrite <- Hname. apply in_map. exact Hx.
  - apply IH; assumption.
Qed.

(** X1: the handler selected for a resource and an operation is an operation
    definition of that name, listed under a resource definition of that
    name. *)
Theorem find_handler_sound (W : Type) (env : Env W) (resource operation : string)
    (handler : OperationDef W) :
  find_handler env resource operation = Some handler ->
  operation_value handler = operation /\
  exists resourceDef,
    In resourceDef (allResourceDefinitions env) /\
    resource_value resourceDef = resource /\
    In handler (operationDefs resourceDef).
Proof.
  unfold find_handler.
  destruct (find (fun resourceDef => String.eqb (resource_value resourceDef) resource)
                 (allResourceDefinitions env)) as [resourceDef|] eqn:Hr;
    [|discriminate].
  intros Ho. apply find_some in Hr. destruct Hr as [Hin Hname].
  apply find_some in Ho. destruct Ho as [Hin' Hname'].
  apply String.eqb_eq in Hname. apply String.eqb_eq in Hname'.
  split; [exact Hname'|]. exists resourceDef. repeat split; assumption.
Qed.

Lemma find_handler_sound_witness :
  find_handler env_list "email" "move" = Some move_handler /\
  operation_value move_handler = "move".
Proof.
  assert (H : find_handler env_list "email" "move" = Some move_handler)
    by reflexivity.
  split; [exact H|].
  exact (proj1 (find_handler_sound nat env_list "email" "move" move_handler H)).
Defined.

(** X2: when no two resource definitions share a name, every operation
    definition listed under a resource is found by the names of the two:
    the handler selected is an operation definition of that resource with
    that operation name. *)
Theorem find_handler_complete (W : Type) (env : Env W)
    (resourceDef : ResourceDef W) (operationDef : OperationDef W) :
  NoDup (map resource_value (allResourceDefinitions env)) ->
  In resourceDef (allResourceDefinitions env) ->
  In operationDef (operationDefs resourceDef) ->
  exists handler,
    find_handler env (resource_value resourceDef) (operation_value operationDef)
      = Some handler /\
    In handler (operationDefs resourceDef) /\
    operation_value handler = operation_value operationDef.
Proof.
  intros Hnd Hin Hin'. unfold find_handler.
  destruct (find (fun rd => String.eqb (resource_value rd) (resource_value resourceDef))
                 (allResourceDefinitions env)) as [found|] eqn:Hr.
  - apply find_some in Hr. destruct Hr as [Hfound Hname].
    apply String.eqb_eq in Hname.
    assert (found = resourceDef)
      by exact (unique_by_name resource_value _ found resourceDef Hnd Hfound Hin Hname).
    subst found.
    destruct (find (fun od => String.eqb (operation_value od)
                                         (operation_value operationDef))
                   (operationDefs resourceDef)) as [handler|] eqn:Ho.
    + apply find_some in Ho. destruct Ho as [Hh Hhn].
      apply String.eqb_eq in Hhn. exists handler. repeat split; assumption.
    + exfalso. pose proof (find_none _ _ Ho operationDef Hin') as Hno.
      simpl in Hno. rewrite String.eqb_refl in Hno. discriminate.
  - exfalso. pose proof (find_none _ _ Hr resourceDef Hin) as Hno.
    simpl in Hno. rewrite String.eqb_refl in Hno. discriminate.
Qed.

Lemma find_handler_complete_witness :
  NoDup (map resource_value (allResourceDefinitions env_list)) /\
  exists handler,
    find_handler env_list "email" "move" = Some handler /\
    operation_value handler = "move".
Proof.
  assert (Hnd : NoDup (map resource_value (allResourceDefinitions env_list))).
  { simpl. constructor; [intros []|constructor]. }
  split; [exact Hnd|].
  destruct (find_handler_complete nat env_list
              (mkResourceDef "email" [list_handler; move_handler]) move_handler
              Hnd (or_introl eq_refl) (or_intror (or_introl eq_refl)))
    as [handler [Hfind [_ Hname]]].
  exists handler. split; [exact Hfind|exact Hname].
Defined.

(** ** More projections of a trace *)

Lemma shim_starts_app (a b : Trace) :
  shim_starts (a ++ b) = shim_starts a ++ shim_starts b.
Proof. apply flat_map_app. Qed.

Lemma debug_flags_app (a b : Trace) :
  debug_flags (a ++ b) = debug_flags a ++ debug_flags b.
Proof. apply flat_map_app. Qed.

#[export] Hint Rewrite shim_starts_app debug_flags_app : trace.

Lemma resolution_no_start (tr : Trace) :
  forallb resolution_event tr = true ->
  shim_starts tr = [] /\ debug_flags tr = [].
Proof.
  intros H. split; apply flat_map_all_nil; intros ev Hev;
    apply (proj1 (forallb_forall _ _) H) in Hev;
    destruct ev; simpl in Hev; try discriminate; reflexivity.
Qed.

Lemma loop_no_debug (tr : Trace) :
  forallb loop_event tr = true -> debug_flags tr = [].
Proof.
  intros H. apply flat_map_all_nil; intros ev Hev;
    apply (proj1 (forallb_forall _ _) H) in Hev;
    destruct ev; simpl in Hev; try discriminate; reflexivity.
Qed.

(** ** The debug switch (lines 190-192) *)

Lemma debug_logging_on (W : Type) (env : Env W) :
  debug_logging env = Some true <-> N8N_LOG_LEVEL env = Some "debug".
Proof.
  unfold debug_logging, str_or_else.
  destruct (N8N_LOG_LEVEL env) as [level|].
  - destruct (is_empty_string level) eqn:E.
    + destruct level; [|discriminate]. simpl. split; discriminate.
    + split.
      * intros H. inversion H as [H']. apply String.eqb_eq in H'. subst.
        reflexivity.
      * intros H. inversion H. reflexivity.
  - simpl. split; discriminate.
Qed.

(** X3: an execution creates at most one client, and creates it with debug
    logging switched on exactly when the environment variable
    [N8N_LOG_LEVEL] is the text [debug]; unset, empty or in any other
    spelling, the switch is off. *)
Theorem debug_logging_switch (W : Type) (env : Env W) (w : W) :
  List.length (debug_flags (events (execute env w))) <= 1 /\
  forall d, In d (debug_flags (events (execute env w))) ->
            exists on, d = Some on /\
                       (on = true <-> N8N_LOG_LEVEL env = Some "debug").
Proof.
  assert (Hflag : exists on, debug_logging env = Some on /\
                             (on = true <-> N8N_LOG_LEVEL env = Some "debug")).
  { destruct (debug_logging env) as [on|] eqn:E; [|discriminate].
    exists on. split; [reflexivity|]. rewrite <- debug_logging_on, E.
    split; [intros ->; reflexivity|intros H; inversion H; reflexivity]. }
  execute_paths env w; autorewrite with trace;
    destruct (resolution_no_start _ Hres) as [_ ->];
    try rewrite (loop_no_debug _ Hloop); simpl;
    (split; [lia|]); intros d Hd;
    try contradiction; destruct Hd as [<-|[]]; exact Hflag.
Qed.

Lemma debug_logging_switch_witness :
  In (Some true)
     (debug_flags (events (execute (with_log_level env_list (Some "debug")) 0))) /\
  exists on, Some true = Some on /\
             (on = true <->
              N8N_LOG_LEVEL (with_log_level env_list (Some "debug")) = Some "debug").
Proof.
  assert (H : In (Some true)
                 (debug_flags
                    (events (execute (with_log_level env_list (Some "debug")) 0)))).
  { left. reflexivity. }
  split; [exact H|].
  exact (proj2 (debug_logging_switch nat (with_log_level env_list (Some "debug")) 0)
               (Some true) H).
Defined.

(** ** Errors outside the handlers *)

(** X4: when [client.connect] throws, the execution throws the
    [NodeApiError] that the host makes of a message and no description: the
    message given to the host is the response text of the error, else its
    message, else ['Unknown error'], whatever the class of the error.  The
    failure is logged once, with the message of the error, and nothing else
    is logged as an error. *)
Theorem connect_failure_reported (W : Type) (env : Env W) (w : W) (e : JsError) :
  connect_calls (events (execute env w)) = [Throw e] ->
  exists text,
    outcome (execute env w) = Throw (NodeApiError (runtime env) text None) /\
    is_empty_string text = false /\
    (str_truthy (responseText e) = true -> Some text = responseText e) /\
    (str_truthy (responseText e) = false -> str_truthy (message e) = true ->
     Some text = message e) /\
    (str_truthy (responseText e) = false -> str_truthy (message e) = false ->
     text = "Unknown error") /\
    error_logs (events (execute env w))
    = [EvLog LogError ("Connection failed: " +++ interpolate (message e))].
Proof.
  execute_paths env w; trace_facts; try discriminate.
  intros H. inversion H; subst e2.
  exists (str_or_else (str_or (responseText e) (message e)) "Unknown error").
  split; [reflexivity|].
  unfold str_or, str_truthy, str_or_else.
  destruct (responseText e) as [rt|]; destruct (message e) as [m|];
    try destruct (is_empty_string rt) eqn:Ert;
    try destruct (is_empty_string m) eqn:Em;
    repeat (progress (simpl; rewrite ?Ert, ?Em));
    repeat split; intros; try discriminate; try reflexivity; try assumption.
Qed.

Lemma connect_failure_reported_witness :
  connect_calls (events (execute env_offline 0)) = [Throw refused_error] /\
  outcome (execute env_offline 0)
  = Throw (NodeApiError descriptive_host "connect ECONNREFUSED 127.0.0.1:993" None) /\
  (forall thrown,
     outcome (execute env_offline 0) = Throw thrown ->
     message thrown
     = Some "The service refused the connection - perhaps it is offline") /\
  error_logs (events (execute env_offline 0))
  = [EvLog LogError "Connection failed: connect ECONNREFUSED 127.0.0.1:993"].
Proof.
  assert (H : connect_calls (events (execute env_offline 0)) = [Throw refused_error])
    by reflexivity.
  split; [exact H|].
  destruct (connect_failure_reported nat env_offline 0 refused_error H)
    as [text [Hout [_ [_ [Hm [_ Hlog]]]]]].
  assert (Ht : Some text = Some "connect ECONNREFUSED 127.0.0.1:993")
    by (apply Hm; reflexivity).
  inversion Ht; subst text.
  split; [exact Hout|]. split; [|exact Hlog].
  intros thrown Hthrown. rewrite Hout in Hthrown. inversion Hthrown. reflexivity.
Defined.

(** X5: once connected, an error of reading the ['resource'] or the
    ['operation'] parameter is thrown by the execution as it is, not wrapped
    in a [NodeApiError]; no handler is called and [client.logout] is called
    once. *)
Theorem parameter_error_passed_on (W : Type) (env : Env W) (w : W) (e : JsError) :
  connect_calls (events (execute env w)) = [Ok tt] ->
  getNodeParameter env "resource" 0 = Throw e \/
  (exists resource, getNodeParameter env "resource" 0 = Ok resource /\
                    getNodeParameter env "operation" 0 = Throw e) ->
  outcome (execute env w) = Throw e /\
  handler_calls (events (execute env w)) = [] /\
  exists s, logout_calls (events (execute env w)) = [s].
Proof.
  execute_paths env w; trace_facts; try discriminate; intros _ Hfail;
    unfold FIRST_ITEM_INDEX in *;
    destruct Hfail as [Hr|[res [Hr Ho]]];
    try (rewrite Hr in Hresource; discriminate);
    try (rewrite Ho in Hoperation; discriminate).
  - rewrite Ho in Hoperation. inversion Hoperation; subst.
    split; [reflexivity|]. split; [reflexivity|]. exists s. reflexivity.
  - rewrite Hr in Hresource. inversion Hresource; subst.
    split; [reflexivity|]. split; [reflexivity|]. exists s. reflexivity.
Qed.

Lemma parameter_error_passed_on_witness :
  connect_calls
    (events (execute (without_parameter env_list "operation" example_error) 0))
    = [Ok tt] /\
  outcome (execute (without_parameter env_list "operation" example_error) 0)
    = Throw example_error.
Proof.
  assert (H : connect_calls
                (events (execute (without_parameter env_list "operation"
                                                    example_error) 0))
              = [Ok tt]) by reflexivity.
  split; [exact H|].
  apply (parameter_error_passed_on nat
           (without_parameter env_list "operation" example_error) 0 example_error H).
  right. exists "email". split; reflexivity.
Defined.

(** X6: an error thrown before the connection is attempted reaches the
    caller as it is: the error of reading the ['authentication'] parameter,
    the error of [getImapCredentials], and the error of [createImapClient].
    In each case no connect call and no logout call is made. *)
Theorem early_error_passed_on (W : Type) (env : Env W) (w : W) (e : JsError) :
  let r := execute env w in
  (getNodeParameter env "authentication" 0 = Throw e ->
   outcome r = Throw e /\ events r = [EvGetNodeParameter "authentication" 0])
  /\ (forall a, getNodeParameter env "authentication" 0 = Ok a ->
                a <> CREDENTIALS_TYPE_FROM_INPUT ->
                snd (storedCredentials env) = Throw e ->
                outcome r = Throw e /\ created_clients (events r) = [] /\
                connect_calls (events r) = [] /\ logout_calls (events r) = [])
  /\ (forall c w1, outcome (resolveCredentials env w) = Ok c ->
                   createImapClient env c (debug_logging env)
                                    (final (resolveCredentials env w))
                   = (w1, Throw e) ->
                   outcome r = Throw e /\ created_clients (events r) = [c] /\
                   connect_calls (events r) = [] /\ logout_calls (events r) = []).
Proof.
  intros r. split; [|split].
  - intros Hauth.
    pose proof (unresolved_without_authentication env w e Hauth) as Hout.
    destruct (execute_unresolved env w e Hout) as [Ho Hev].
    subst r. rewrite Ho, Hev. split; [reflexivity|].
    unfold resolveCredentials, bind, param, host_call.
    cbn [outcome events final]. unfold FIRST_ITEM_INDEX. rewrite Hauth.
    reflexivity.
  - intros a Hauth Hne Hstore.
    pose proof (resolve_from_store env w a Hauth Hne) as Hrun.
    assert (Hout : outcome (resolveCredentials env w) = Throw e)
      by (rewrite Hrun; exact Hstore).
    destruct (execute_unresolved env w e Hout) as [Ho Hev].
    subst r. rewrite Ho, Hev, Hrun. repeat split.
  - subst r. execute_paths env w; trace_facts; intros c w1' Hc Hcr;
      inversion Hc; subst c; rewrite Hcreated in Hcr; inversion Hcr; subst.
    repeat split.
Qed.

Lemma early_error_passed_on_witness :
  getNodeParameter (without_parameter env_list "authentication" example_error)
                   "authentication" 0 = Throw example_error /\
  outcome (execute (without_parameter env_list "authentication" example_error) 0)
    = Throw example_error.
Proof.
  split; [reflexivity|].
  exact (proj1 (proj1 (early_error_passed_on nat
                         (without_parameter env_list "authentication" example_error)
                         0 example_error) eq_refl)).
Defined.

(** ** Edge cases of the dispatch *)

(** X7: with a connection and a known operation but no input item, the
    execution succeeds and returns one empty branch: no handler is called,
    the shim is not touched, and [client.logout] is called once. *)
Theorem no_items_no_calls (W : Type) (env : Env W) (w : W)
    (resource operation : string) (handler : OperationDef W) :
  connect_calls (events (execute env w)) = [Ok tt] ->
  getNodeParameter env "resource" 0 = Ok resource ->
  getNodeParameter env "operation" 0 = Ok operation ->
  find_handler env resource operation = Some handler ->
  getInputData env = [] ->
  outcome (execute env w) = Ok [[]] /\
  handler_calls (events (execute env w)) = [] /\
  shim_starts (events (execute env w)) = [] /\
  exists s, logout_calls (events (execute env w)) = [s].
Proof.
  intros Hopen Hr Ho Hf Hitems. revert Hopen.
  rewrite (execute_run env w). cbv zeta.
  pose proof (resolveCredentials_events env w) as Hres.
  destruct (resolveCredentials env w) as [tr0 w0 [credentials|e0]];
    cbn [outcome events final] in *;
    [|rewrite (resolution_no_connect _ Hres); discriminate].
  destruct (createImapClient env credentials (debug_logging env) w0)
    as [w1 [[]|e1]];
    [|cbn [events]; autorewrite with trace;
      rewrite (resolution_no_connect _ Hres); discriminate].
  destruct (connect env w1) as [w2 [[]|e2]];
    [|cbn [events]; autorewrite with trace;
      rewrite (resolution_no_connect _ Hres); discriminate].
  rewrite (guarded_run env w2). unfold FIRST_ITEM_INDEX.
  rewrite Hr, Ho, Hf, Hitems. cbv zeta. simpl for_items. unfold ret.
  cbn [outcome events final]. destruct (logout env w2) as [w3 s].
  cbn [outcome events final]. intros _. autorewrite with trace.
  rewrite (resolution_no_handler _ Hres), (resolution_no_logout _ Hres).
  destruct (resolution_no_start _ Hres) as [-> _]. simpl.
  repeat split. exists s. reflexivity.
Qed.

Lemma no_items_no_calls_witness :
  connect_calls (events (execute env_idle 0)) = [Ok tt] /\
  outcome (execute env_idle 0) = Ok [[]].
Proof.
  assert (H : connect_calls (events (execute env_idle 0)) = [Ok tt]) by reflexivity.
  split; [exact H|].
  exact (proj1 (no_items_no_calls nat env_idle 0 "email" "list" list_handler
                  H eq_refl eq_refl eq_refl eq_refl)).
Defined.

(** ** The error-interception shim (lines 223 and 232) *)

Lemma catch_logs_no_start (resource operation : string) (e : JsError)
    (captured : list string) :
  shim_starts (catch_logs resource operation e captured) = [].
Proof.
  unfold catch_logs.
  destruct (Nat.ltb 0 (List.length captured)); destruct (isNodeApiError e);
    try reflexivity; destruct (stringifyThrows e); reflexivity.
Qed.

(** The loop arms the shim once for each handler call. *)
Lemma for_items_starts (W : Type) (env : Env W) (resource operation : string)
    (handler : OperationDef W) (remaining : nat) :
  forall itemIndex resultItems w,
    let tr := events (for_items env resource operation handler remaining
                                itemIndex resultItems w) in
    List.length (shim_starts tr) = List.length (handler_calls tr).
Proof.
  induction remaining as [|remaining IH]; intros itemIndex resultItems w tr.
  - reflexivity.
  - subst tr. rewrite for_items_step.
    destruct (executeImapAction handler itemIndex (startErrorCatching env w))
      as [w1 [ret|e]].
    + cbn [outcome events final]. autorewrite with trace.
      rewrite !length_app, IH. destruct ret as [?|]; reflexivity.
    + destruct (stopAndGetErrors env w1) as [w2 captured].
      cbn [outcome events final]. autorewrite with trace.
      rewrite catch_logs_no_start.
      destruct (catch_logs_no_handler resource operation e captured) as [-> _].
      reflexivity.
Qed.

(** [execute_paths], with a fact about the loop added by [hook] before the
    run of the loop is taken apart. *)
Ltac execute_paths_hook env w hook :=
  rewrite (execute_run env w);
  let Hres := fresh "Hres" in
  pose proof (resolveCredentials_events env w) as Hres;
  destruct (resolveCredentials env w) as [tr0 w0 [credentials|e0]];
  cbn [outcome events final] in *;
  [ destruct (createImapClient env credentials (debug_logging env) w0)
      as [w1 [[]|e1]] eqn:Hcreated;
    [ destruct (connect env w1) as [w2 [[]|e2]] eqn:Hconnected;
      [ rewrite (guarded_run env w2);
        destruct (getNodeParameter env "resource" FIRST_ITEM_INDEX)
          as [resource|e3] eqn:Hresource;
        [ destruct (getNodeParameter env "operation" FIRST_ITEM_INDEX)
            as [operation|e4] eqn:Hoperation;
          [ destruct (find_handler env resource operation) as [handler|] eqn:Hfind;
            [ let Hloop := fresh "Hloop" in
              let Hcases := fresh "Hcases" in
              pose proof (for_items_events env resource operation handler
                            (List.length (getInputData env)) 0 [] w2) as Hloop;
              pose proof (for_items_cases env resource operation handler
                            (List.length (getInputData env)) 0 [] w2) as Hcases;
              hook resource operation handler w2;
              cbv zeta in *;
              destruct (for_items env resource operation handler
                          (List.length (getInputData env)) 0 [] w2)
                as [trl wl [resultItems|e5]];
              cbn [outcome events final] in *;
              destruct (logout env wl) as [w3 s]
            | cbv zeta; destruct (logout env w2) as [w3 s] ]
          | destruct (logout env w2) as [w3 s] ]
        | destruct (logout env w2) as [w3 s] ]
      | ]
    | ]
  | ];
  cbn [outcome events final] in *.

(** X8: the shim is armed once for each handler call, and asked for the
    captured lines at most once in an execution: exactly when a handler call
    threw.  An execution whose calls all return arms the shim for every item
    and never asks it. *)
Theorem shim_usage (W : Type) (env : Env W) (w : W) :
  let tr := events (execute env w) in
  List.length (shim_starts tr) = List.length (handler_calls tr)
  /\ List.length (captured_errors tr) <= 1
  /\ (captured_errors tr = [] <->
      forall i e, ~ In (i, Throw e) (handler_calls tr)).
Proof.
  intros tr. subst tr.
  execute_paths_hook env w
    ltac:(fun resource operation handler w2 =>
            pose proof (for_items_starts W env resource operation handler
                          (List.length (getInputData env)) 0 [] w2) as Hstarts);
    trace_facts;
    destruct (resolution_no_start _ Hres) as [Hs _]; rewrite ?Hs; simpl;
    try (split; [reflexivity|split; [lia|split; [intros _ i e []|reflexivity]]]).
  - (* completed loop *)
    destruct Hcases as [[returns [Hlen [Hcalls [Hout [Hcap _]]]]]
                       |[k [returns [x [c [_ [_ [_ [H _]]]]]]]]]; [|discriminate].
    rewrite !app_nil_r.
    split; [exact Hstarts|]. split; [rewrite Hcap; simpl; lia|].
    rewrite Hcap, Hcalls. split; [|reflexivity].
    intros _ i e Hin. exact (no_throw_among_returns _ _ _ _ Hin).
  - (* aborted loop *)
    rewrite !app_nil_r.
    destruct Hcases as [[returns [_ [_ [H _]]]]
                       |[k [returns [x [c [_ [_ [Hcalls [_ Hcap]]]]]]]]]; [discriminate|].
    split; [exact Hstarts|]. split; [rewrite Hcap; simpl; lia|].
    rewrite Hcap, Hcalls. split; [discriminate|].
    intros Hno. exfalso. apply (Hno (0 + k) x).
    apply in_or_app. right. left. reflexivity.
Qed.

Lemma shim_usage_witness :
  captured_errors (events (execute env_list 0)) = [] /\
  forall i e, ~ In (i, Throw e) (handler_calls (events (execute env_list 0))).
Proof.
  assert (H : captured_errors (events (execute env_list 0)) = []) by reflexivity.
  split; [exact H|].
  exact (proj1 (proj2 (proj2 (shim_usage nat env_list 0))) H).
Defined.

(** ** The closing log entry (lines 275 and 280) *)

(** X9: once connected, the last two events of an execution are the call of
    [client.logout] and one log entry that tells how the execution ended:
    the information ['IMAP connection closed'] exactly when it succeeded,
    and otherwise an error entry carrying the message of the error it
    throws. *)
Theorem closing_entry_tells_outcome (W : Type) (env : Env W) (w : W) :
  connect_calls (events (execute env w)) = [Ok tt] ->
  exists body s,
    events (execute env w)
    = body ++ [EvLogout s;
               match outcome (execute env w) with
               | Ok _ => EvLog LogInfo "IMAP connection closed"
               | Throw e =>
                   EvLog LogError ("IMAP connection closed. Error: "
                                     +++ interpolate (message e))
               end].
Proof.
  execute_paths env w; trace_facts; try discriminate; intros _.
  - exists (tr0 ++ [EvCreateImapClient credentials (debug_logging env);
                    EvConnect (Ok tt); EvGetNodeParameter "resource" 0;
                    EvGetNodeParameter "operation" 0; EvGetInputData] ++ trl), s.
    rewrite <- !app_assoc. reflexivity.
  - exists (tr0 ++ [EvCreateImapClient credentials (debug_logging env);
                    EvConnect (Ok tt); EvGetNodeParameter "resource" 0;
                    EvGetNodeParameter "operation" 0; EvGetInputData] ++ trl), s.
    rewrite <- !app_assoc. reflexivity.
  - exists (tr0 ++ [EvCreateImapClient credentials (debug_logging env);
                    EvConnect (Ok tt); EvGetNodeParameter "resource" 0;
                    EvGetNodeParameter "operation" 0;
                    EvLog LogError (unknown_operation resource operation)]), s.
    rewrite <- app_assoc. reflexivity.
  - exists (tr0 ++ [EvCreateImapClient credentials (debug_logging env);
                    EvConnect (Ok tt); EvGetNodeParameter "resource" 0;
                    EvGetNodeParameter "operation" 0]), s.
    rewrite <- app_assoc. reflexivity.
  - exists (tr0 ++ [EvCreateImapClient credentials (debug_logging env);
                    EvConnect (Ok tt); EvGetNodeParameter "resource" 0]), s.
    rewrite <- app_assoc. reflexivity.
Qed.

Lemma closing_entry_tells_outcome_witness :
  connect_calls (events (execute env_list 0)) = [Ok tt] /\
  exists body s,
    events (execute env_list 0)
    = body ++ [EvLogout s;
               match outcome (execute env_list 0) with
               | Ok _ => EvLog LogInfo "IMAP connection closed"
               | Throw e =>
                   EvLog LogError ("IMAP connection closed. Error: "
                                     +++ interpolate (message e))
               end].
Proof.
  assert (H : connect_calls (events (execute env_list 0)) = [Ok tt]) by reflexivity.
  split; [exact H|].
  exact (closing_entry_tells_outcome nat env_list 0 H).
Defined.

(** ** The record built from the upstream item (lines 160-183) *)

(** X10: building the credentials record is idempotent: the record built
    from an already built record is that record. *)
Theorem credentials_of_input_idempotent (inputCredentials : JsValue) :
  credentials_of_input (JsObject (credentials_of_input inputCredentials))
  = credentials_of_input inputCredentials.
Proof.
  unfold credentials_of_input at 1. cbn [get].
  unfold credentials_of_input, js_or.
  cbn [lookup String.eqb Ascii.eqb Bool.eqb].
  destruct (truthy (get inputCredentials "port")) eqn:Hport.
  - rewrite Hport.
    destruct (strict_eq_bool (get inputCredentials "tls") false);
      destruct (strict_eq_bool (get inputCredentials "allowUnauthorizedCerts") true);
      reflexivity.
  - cbn [truthy Z.eqb negb].
    destruct (strict_eq_bool (get inputCredentials "tls") false);
      destruct (strict_eq_bool (get inputCredentials "allowUnauthorizedCerts") true);
      reflexivity.
Qed.

(** X11: only the first input item takes part in resolving the
    credentials: with other items after it, the resolution makes the same
    calls and has the same result. *)
Theorem credentials_from_first_item_only (W : Type) (env : Env W) (w : W)
    (first : INodeExecutionData) (rest rest' : list INodeExecutionData) :
  resolveCredentials (with_input_data env (first :: rest)) w
  = resolveCredentials (with_input_data env (first :: rest')) w.
Proof.
  unfold resolveCredentials, credentialsFromInput, getImapCredentials, bind,
    param, inputData, host_call, throw, ret, with_input_data.
  cbn [outcome events final getNodeParameter getInputData storedCredentials
       List.length Nat.eqb nth_error FIRST_ITEM_INDEX].
  destruct (getNodeParameter env "authentication" FIRST_ITEM_INDEX) as [a|e];
    [|reflexivity].
  destruct (String.eqb a CREDENTIALS_TYPE_FROM_INPUT); reflexivity.
Qed.

(** X12: a credentials member of the first item that is truthy but not an
    object (a text, a number, [true], an array) is refused like an object
    without host: the execution throws the [NodeApiError] 'Credentials must
    contain at least host, user, and password fields' and creates no
    client. *)
Theorem non_object_credentials_refused (W : Type) (env : Env W) (w : W)
    (first : INodeExecutionData) (rest : list INodeExecutionData)
    (field : string) :
  getNodeParameter env "authentication" 0 = Ok CREDENTIALS_TYPE_FROM_INPUT ->
  getInputData env = first :: rest ->
  getNodeParameter env "credentialsField" 0 = Ok field ->
  truthy (lookup field (json first)) = true ->
  (forall fields, lookup field (json first) <> JsObject fields) ->
  outcome (execute env w)
    = Throw (NodeApiError (runtime env)
               "Credentials must contain at least host, user, and password fields"
               None) /\
  created_clients (events (execute env w)) = [] /\
  connect_calls (events (execute env w)) = [].
Proof.
  intros Hauth Hitems Hfield Htruthy Hother.
  pose proof (resolve_from_input env w Hauth) as Hrun.
  rewrite Hitems, Hfield in Hrun. cbv zeta in Hrun. rewrite Htruthy in Hrun.
  assert (Hhost : get (lookup field (json first)) "host" = JsUndefined).
  { destruct (lookup field (json first)) as [| | | | | |fields|] eqn:E;
      try reflexivity.
    exfalso. apply (Hother fields). reflexivity. }
  rewrite Hhost in Hrun. cbn [negb truthy orb] in Hrun.
  pose proof (resolveCredentials_events env w) as Hq.
  assert (Hout : outcome (resolveCredentials env w)
                 = Throw (NodeApiError (runtime env)
                            "Credentials must contain at least host, user, and password fields"
                            None))
    by (rewrite Hrun; reflexivity).
  destruct (execute_unresolved env w _ Hout) as [Ho Hev].
  rewrite Ho, Hev, (resolution_no_client _ Hq), (resolution_no_connect _ Hq).
  repeat split.
Qed.

Lemma non_object_credentials_refused_witness :
  truthy (lookup "credentials" (json text_item)) = true /\
  outcome (execute env_text 0)
    = Throw (NodeApiError (runtime env_text)
               "Credentials must contain at least host, user, and password fields"
               None).
Proof.
  split; [reflexivity|].
  apply (non_object_credentials_refused nat env_text 0 text_item
           [example_item 2] "credentials"); try reflexivity.
  intros fields. discriminate.
Defined.

(** ** The captured lines in the description (lines 233 and 259-261) *)

Lemma string_app_nil_r (s : string) : s +++ EmptyString = s.
Proof. induction s as [|c s IH]; simpl; [reflexivity|rewrite IH; reflexivity]. Qed.

Lemma string_app_assoc (a b c : string) : (a +++ b) +++ c = a +++ b +++ c.
Proof. induction a as [|x a IH]; simpl; [reflexivity|rewrite IH; reflexivity]. Qed.

Lemma contains_after (s part before : string) :
  contains s part -> contains (before +++ s) part.
Proof.
  intros [b [a ->]]. exists (before +++ b), a.
  rewrite string_app_assoc. reflexivity.
Qed.

(** Every line is part of the joined text. *)
Lemma join_contains (sep : string) (lines : list string) (line : string) :
  In line lines -> contains (join sep lines) line.
Proof.
  induction lines as [|l rest IH]; intros Hin; [contradiction|].
  destruct rest as [|l' rest].
  - destruct Hin as [->|[]]. exists EmptyString, EmptyString.
    simpl. rewrite string_app_nil_r. reflexivity.
  - change (join sep (l :: l' :: rest)) with (l +++ sep +++ join sep (l' :: rest)).
    destruct Hin as [->|Hin].
    + exists EmptyString, (sep +++ join sep (l' :: rest)). reflexivity.
    + apply contains_after. apply contains_after. apply IH. exact Hin.
Qed.

(** X13: no captured line is lost: when a handler call throws an error
    that is not a [NodeApiError] and that [JSON.stringify] can serialise, the
    execution throws the [NodeApiError] the host makes of a message and a
    description in which every line of text the shim captured occurs. *)
Theorem captured_lines_in_description (W : Type) (env : Env W) (w : W) (i : nat)
    (e : JsError) (captured : list string) (line : string) :
  In (i, Throw e) (handler_calls (events (execute env w))) ->
  isNodeApiError e = false ->
  stringifyThrows e = None ->
  captured_errors (events (execute env w)) = [captured] ->
  In line captured ->
  line <> EmptyString ->
  exists text descr,
    outcome (execute env w)
    = Throw (NodeApiError (runtime env) text (Some descr)) /\
    contains descr line.
Proof.
  intros Hin Hclass Hjson Hcap Hline Htext.
  destruct (handler_throw_aborts W env w i e Hin)
    as [returns [captured' [_ [_ [_ [Hcap' Hout]]]]]].
  rewrite Hcap in Hcap'. inversion Hcap'; subst captured'.
  exists (errorMessage_of e (joined_errors captured)),
    ("The following errors were reported by the IMAP server: " +++ newline
       +++ joined_errors captured).
  split.
  - rewrite Hout. unfold rethrown. rewrite Hclass, Hjson.
    unfold errorDescription_of.
    rewrite (joined_errors_text captured); [reflexivity|].
    exists line. split; assumption.
  - apply contains_after. apply contains_after.
    apply join_contains. exact Hline.
Qed.

Lemma captured_lines_in_description_witness :
  In (1, Throw silent_error) (handler_calls (events (execute env_move 0))) /\
  exists text descr,
    outcome (execute env_move 0)
    = Throw (NodeApiError (runtime env_move) text (Some descr)) /\
    contains descr "BAD Command".
Proof.
  assert (H : In (1, Throw silent_error)
                 (handler_calls (events (execute env_move 0)))).
  { vm_compute. right. left. reflexivity. }
  split; [exact H|].
  apply (captured_lines_in_description nat env_move 0 1 silent_error
           ["NO Mailbox missing"; "BAD Command"] "BAD Command" H).
  - reflexivity.
  - reflexivity.
  - reflexivity.
  - right. left. reflexivity.
  - discriminate.
Defined.

(** ** What the credential test calls (lines 292-310) *)

(** X14: the credential test creates one client, from the record it is
    given and without the debug switch; it reads no node parameter, no input
    item and no credential store and calls no handler; it connects at most
    once and logs out only after a connect that succeeded. *)
Theorem credential_test_calls (W : Type) (env : Env W)
    (credentials : ImapCredentialsData) (w : W) :
  let tr := events (testImapCredentials env credentials w) in
  created_clients tr = [credentials]
  /\ debug_flags tr = [None]
  /\ parameter_reads tr = []
  /\ credential_sources tr = []
  /\ handler_calls tr = []
  /\ List.length (connect_calls tr) <= 1
  /\ List.length (logout_calls tr) <= 1
  /\ (logout_calls tr <> [] -> connect_calls tr = [Ok tt]).
Proof.
  intros tr. subst tr. rewrite testImapCredentials_run.
  destruct (createImapClient env credentials None w) as [w1 [[]|e]].
  - destruct (connect env w1) as [w2 [[]|e]].
    + destruct (logout env w2) as [w3 s]. simpl.
      repeat split; try lia.
    + simpl. repeat split; try lia. intros H. contradiction H. reflexivity.
  - simpl. repeat split; try lia. intros H. contradiction H. reflexivity.
Qed.

Lemma credential_test_calls_witness :
  logout_calls (events (testImapCredentials env_list stored_example 0)) <> [] /\
  connect_calls (events (testImapCredentials env_list stored_example 0)) = [Ok tt].
Proof.
  assert (H : logout_calls (events (testImapCredentials env_list stored_example 0))
              <> []) by discriminate.
  split; [exact H|].
  exact (proj2 (proj2 (proj2 (proj2 (proj2 (proj2 (proj2
           (credential_test_calls nat env_list stored_example 0))))))) H).
Defined.

(** ** The loop over the items (lines 220-264) *)

Section LoopAlgebra.

Context {W : Type} (env : Env W).
Variables (resource operation : string) (handler : OperationDef W).

(** X15: the loop only appends to the result list: started with items
    already collected, it makes the same calls and leaves the same state as
    started with none, and returns the collected items followed by what it
    returns when started with none; it throws the same error. *)
Theorem for_items_appends (remaining : nat) :
  forall itemIndex resultItems w,
    let r := for_items env resource operation handler remaining itemIndex
                       resultItems w in
    let r0 := for_items env resource operation handler remaining itemIndex [] w in
    events r = events r0 /\
    final r = final r0 /\
    outcome r = match outcome r0 with
                | Ok items => Ok (resultItems ++ items)
                | Throw e => Throw e
                end.
Proof.
  induction remaining as [|remaining IH]; intros itemIndex resultItems w r r0.
  - subst r r0. simpl. rewrite app_nil_r. repeat split.
  - subst r r0. rewrite !for_items_step.
    destruct (executeImapAction handler itemIndex (startErrorCatching env w))
      as [w1 [ret|e]].
    + cbn [outcome events final].
      destruct (IH (S itemIndex) (resultItems ++ returned_items (Ok ret)) w1)
        as [Hev [Hfin Hout]].
      destruct (IH (S itemIndex) ([] ++ returned_items (Ok ret)) w1)
        as [Hev0 [Hfin0 Hout0]].
      rewrite Hev, Hfin, Hout, Hev0, Hfin0, Hout0.
      split; [reflexivity|]. split; [reflexivity|].
      destruct (outcome (for_items env resource operation handler remaining
                                   (S itemIndex) [] w1)) as [items|e];
        [|reflexivity].
      simpl. rewrite <- app_assoc. reflexivity.
    + destruct (stopAndGetErrors env w1) as [w2 captured].
      repeat split.
Qed.

(** X16: the loop over [n + m] items is the loop over the first [n]
    followed, on the state and with the result list these left, by the loop
    over the next [m] items, whose indices go on from [n]. *)
Theorem for_items_split (n m : nat) :
  forall itemIndex resultItems w,
    for_items env resource operation handler (n + m) itemIndex resultItems w
    = bind (for_items env resource operation handler n itemIndex resultItems)
           (fun collected =>
              for_items env resource operation handler m (itemIndex + n) collected)
           w.
Proof.
  induction n as [|n IH]; intros itemIndex resultItems w.
  - simpl. unfold bind, ret. cbn [outcome events final].
    rewrite Nat.add_0_r.
    destruct (for_items env resource operation handler m itemIndex resultItems w).
    reflexivity.
  - change (S n + m) with (S (n + m)). unfold bind. rewrite !for_items_step.
    destruct (executeImapAction handler itemIndex (startErrorCatching env w))
      as [w1 [ret|e]].
    + cbv zeta. rewrite IH. unfold bind. cbn [outcome events final].
      destruct (for_items env resource operation handler n (S itemIndex)
                          (resultItems ++ returned_items (Ok ret)) w1)
        as [trn wn [collected|e]]; cbn [outcome events final].
      * replace (itemIndex + S n) with (S itemIndex + n) by lia.
        rewrite <- !app_assoc. reflexivity.
      * reflexivity.
    + destruct (stopAndGetErrors env w1) as [w2 captured].
      cbn [outcome events final]. reflexivity.
Qed.

End LoopAlgebra.

(** ** What is logged when an item fails (lines 232-255 and 280) *)

Lemma catch_logs_errors (resource operation : string) (e : JsError)
    (captured : list string) :
  error_logs (catch_logs resource operation e captured)
  = catch_logs resource operation e captured.
Proof.
  unfold catch_logs.
  destruct (Nat.ltb 0 (List.length captured)); destruct (isNodeApiError e);
    try reflexivity; destruct (stringifyThrows e); reflexivity.
Qed.

(** The error entries of a loop that throws are those of its [catch]
    block. *)
Lemma for_items_error_logs (W : Type) (env : Env W) (resource operation : string)
    (handler : OperationDef W) (remaining : nat) :
  forall itemIndex resultItems w,
    let r := for_items env resource operation handler remaining itemIndex
                       resultItems w in
    forall thrown, outcome r = Throw thrown ->
      exists i e captured,
        In (i, Throw e) (handler_calls (events r)) /\
        captured_errors (events r) = [captured] /\
        error_logs (events r) = catch_logs resource operation e captured.
Proof.
  induction remaining as [|remaining IH]; intros itemIndex resultItems w r thrown.
  - subst r. simpl. discriminate.
  - subst r. rewrite for_items_step.
    destruct (executeImapAction handler itemIndex (startErrorCatching env w))
      as [w1 [ret|e]].
    + cbn [outcome events final]. intros Hthrown.
      destruct (IH (S itemIndex) (resultItems ++ returned_items (Ok ret)) w1
                   thrown Hthrown) as [i [e [captured [Hin [Hcap Hlogs]]]]].
      exists i, e, captured. autorewrite with trace.
      rewrite Hcap, Hlogs. split; [|split].
      * apply in_or_app. right. exact Hin.
      * destruct ret as [?|]; reflexivity.
      * destruct ret as [?|]; reflexivity.
    + destruct (stopAndGetErrors env w1) as [w2 captured].
      cbn [outcome events final]. intros _.
      exists itemIndex, e, captured. autorewrite with trace.
      destruct (catch_logs_no_handler resource operation e captured)
        as [Hq1 [Hq2 _]].
      rewrite Hq1, Hq2, catch_logs_errors. simpl.
      repeat split. left. reflexivity.
Qed.

(** X17: when the handler call for an item throws [e], the error entries of
    the log are, in this order: the lines the server reported, if the shim
    captured any; for an [e] that is not a [NodeApiError], the failure of the
    operation with the message found for it (the response text of [e], else
    its message, else the joined captured lines, else ['Unknown error']) and,
    if [JSON.stringify] returns for [e], the serialised error; and the
    closing entry with the message of the error thrown, which is [e] itself
    for a [NodeApiError], else what [JSON.stringify] throws, else the
    [NodeApiError] the host makes of the message found.  A [NodeApiError] of
    a handler is thus logged by the closing entry only. *)
Theorem failed_item_log (W : Type) (env : Env W) (w : W) (i : nat) (e : JsError)
    (captured : list string) :
  In (i, Throw e) (handler_calls (events (execute env w))) ->
  captured_errors (events (execute env w)) = [captured] ->
  exists resource operation thrown text,
    getNodeParameter env "resource" 0 = Ok resource /\
    getNodeParameter env "operation" 0 = Ok operation /\
    outcome (execute env w) = Throw thrown /\
    (str_truthy (responseText e) = true -> Some text = responseText e) /\
    (str_truthy (responseText e) = false -> str_truthy (message e) = true ->
     Some text = message e) /\
    (str_truthy (responseText e) = false -> str_truthy (message e) = false ->
     text = if is_empty_string (joined_errors captured)
            then "Unknown error" else joined_errors captured) /\
    (isNodeApiError e = true -> thrown = e) /\
    (isNodeApiError e = false ->
     forall failure, stringifyThrows e = Some failure -> thrown = failure) /\
    (isNodeApiError e = false -> stringifyThrows e = None ->
     exists descr, thrown = NodeApiError (runtime env) text descr) /\
    error_logs (events (execute env w))
    = (match captured with
       | [] => []
       | _ :: _ => [EvLog LogError ("IMAP server reported errors: "
                                      +++ joined_errors captured)]
       end)
      ++ (if isNodeApiError e then []
          else EvLog LogError
                 (operation_of resource operation +++ " failed: " +++ text)
               :: match stringifyThrows e with
                  | Some _ => []
                  | None => [EvLogErrorObject e]
                  end)
      ++ [EvLog LogError ("IMAP connection closed. Error: "
                            +++ interpolate (message thrown))].
Proof.
  execute_paths_hook env w
    ltac:(fun resource operation handler w2 =>
            pose proof (for_items_error_logs W env resource operation handler
                          (List.length (getInputData env)) 0 [] w2) as Hlogs);
    trace_facts; try contradiction.
  - (* completed loop: no call threw *)
    rewrite !app_nil_r. intros Hin.
    destruct Hcases as [[returns [_ [Hcalls _]]]|[k [returns [x [c [_ [_ [_ [H _]]]]]]]]].
    + rewrite Hcalls in Hin. exfalso. exact (no_throw_among_returns _ _ _ _ Hin).
    + discriminate.
  - (* aborted loop *)
    rewrite !app_nil_r. intros Hin Hcap.
    destruct Hcases as [[returns [_ [_ [H _]]]]
                       |[k [returns [x [c [Hk [Hlen [Hcalls [Hout Hcap']]]]]]]]].
    + discriminate.
    + destruct (Hlogs e5 eq_refl) as [i' [e' [c' [Hin' [Hcap'' Hl]]]]].
      rewrite Hcalls in Hin, Hin'.
      destruct (aborted_last _ _ _ _ _ Hin) as [-> ->].
      destruct (aborted_last _ _ _ _ _ Hin') as [_ ->].
      rewrite Hcap in Hcap', Hcap''.
      inversion Hcap'; subst c. inversion Hcap''; subst c'.
      inversion Hout; subst e5.
      exists resource, operation, (rethrown env x captured),
        (errorMessage_of x (joined_errors captured)).
      split; [exact Hresource|]. split; [exact Hoperation|].
      split; [reflexivity|].
      destruct (errorMessage_of_cases x (joined_errors captured))
        as [_ [Hrt [Hm Hlines]]].
      repeat (split; [assumption|]).
      rewrite Hl. unfold catch_logs, closed_with_error, rethrown.
      destruct (isNodeApiError x) eqn:Hx.
      * split; [reflexivity|]. split; [discriminate|]. split; [discriminate|].
        destruct captured as [|l rest]; reflexivity.
      * split; [discriminate|]. split; [intros _ failure ->; reflexivity|].
        split.
        { intros _ ->. eexists. reflexivity. }
        destruct captured as [|l rest]; destruct (stringifyThrows x);
          reflexivity.
Qed.

Lemma failed_item_log_witness :
  In (1, Throw silent_error) (handler_calls (events (execute env_move 0))) /\
  captured_errors (events (execute env_move 0))
    = [["NO Mailbox missing"; "BAD Command"]] /\
  List.length (error_logs (events (execute env_move 0))) = 4 /\
  error_logs (events (execute env_move 0))
  = [EvLog LogError ("IMAP server reported errors: NO Mailbox missing, "
                       +++ newline +++ "BAD Command");
     EvLog LogError ("Operation " +++ dquote +++ "move" +++ dquote
                       +++ " for resource " +++ dquote +++ "email" +++ dquote
                       +++ " failed: NO Mailbox missing, " +++ newline
                       +++ "BAD Command");
     EvLogErrorObject silent_error;
     EvLog LogError ("IMAP connection closed. Error: NO Mailbox missing, "
                       +++ newline +++ "BAD Command")].
Proof.
  assert (H : In (1, Throw silent_error)
                 (handler_calls (events (execute env_move 0)))).
  { vm_compute. right. left. reflexivity. }
  assert (Hc : captured_errors (events (execute env_move 0))
               = [["NO Mailbox missing"; "BAD Command"]]) by reflexivity.
  split; [exact H|]. split; [exact Hc|]. split; [|reflexivity].
  destruct (failed_item_log nat env_move 0 1 silent_error _ H Hc)
    as [resource [operation [thrown [text [_ [_ [_ [_ [_ [_ [_ [_ [_ Hlogs]]]]]]]]]]]]].
  rewrite Hlogs. reflexivity.
Defined.

(** ** The order of the calls *)

(** X18: handlers are called only on an open connection: in an execution
    with a handler call, every handler call comes after the one connect
    call, which succeeded, and before the one logout call, which only the
    closing log entry follows. *)
Theorem handlers_between_connect_and_logout (W : Type) (env : Env W) (w : W) :
  handler_calls (events (execute env w)) <> [] ->
  exists before between s level text,
    events (execute env w)
    = before ++ [EvConnect (Ok tt)] ++ between ++ [EvLogout s; EvLog level text] /\
    handler_calls before = [] /\
    connect_calls before = [] /\ connect_calls between = [] /\
    logout_calls before = [] /\ logout_calls between = [].
Proof.
  execute_paths env w; trace_facts; intros Hcalls;
    try (contradiction Hcalls; reflexivity).
  - exists (tr0 ++ [EvCreateImapClient credentials (debug_logging env)]),
      ([EvGetNodeParameter "resource" 0; EvGetNodeParameter "operation" 0;
        EvGetInputData] ++ trl), s, LogInfo, "IMAP connection closed".
    split; [rewrite <- !app_assoc; reflexivity|].
    trace_facts. repeat split.
  - exists (tr0 ++ [EvCreateImapClient credentials (debug_logging env)]),
      ([EvGetNodeParameter "resource" 0; EvGetNodeParameter "operation" 0;
        EvGetInputData] ++ trl), s, LogError,
      ("IMAP connection closed. Error: " +++ interpolate (message e5)).
    split; [rewrite <- !app_assoc; reflexivity|].
    trace_facts. repeat split.
Qed.

Lemma handlers_between_connect_and_logout_witness :
  handler_calls (events (execute env_list 0)) <> [] /\
  exists before between s level text,
    events (execute env_list 0)
    = before ++ [EvConnect (Ok tt)] ++ between ++ [EvLogout s; EvLog level text] /\
    handler_calls before = [].
Proof.
  assert (H : handler_calls (events (execute env_list 0)) <> []) by discriminate.
  split; [exact H|].
  destruct (handlers_between_connect_and_logout nat env_list 0 H)
    as [before [between [s [level [text [Hev [Hb _]]]]]]].
  exists before, between, s, level, text. split; [exact Hev|exact Hb].
Defined.

(** ** The parameters [execute] reads *)

(** The parameters read by the resolution. *)
Lemma resolve_parameter_reads (W : Type) (env : Env W) (w : W) :
  let reads := parameter_reads (events (resolveCredentials env w)) in
  reads = [("authentication", 0)]
  \/ (reads = [("authentication", 0); ("credentialsField", 0)] /\
      getNodeParameter env "authentication" 0 = Ok CREDENTIALS_TYPE_FROM_INPUT /\
      getInputData env <> []).
Proof.
  unfold resolveCredentials, credentialsFromInput, getImapCredentials, bind,
    param, inputData, host_call, throw, ret, FIRST_ITEM_INDEX.
  cbn [outcome events final].
  destruct (getNodeParameter env "authentication" 0) as [a|e] eqn:Hauth;
    [|left; reflexivity].
  destruct (String.eqb a CREDENTIALS_TYPE_FROM_INPUT) eqn:E.
  - apply String.eqb_eq in E. subst a. cbn [outcome events final].
    destruct (getInputData env) as [|first rest] eqn:Hitems;
      [left; reflexivity|].
    cbn [outcome events final List.length Nat.eqb nth_error].
    right. split; [|split; [reflexivity|discriminate]].
    destruct (getNodeParameter env "credentialsField" 0) as [f|e];
      [|reflexivity].
    cbn [outcome events final].
    destruct (negb (truthy (lookup f (json first)))); [reflexivity|].
    destruct (negb (truthy (get (lookup f (json first)) "host"))
              || negb (truthy (get (lookup f (json first)) "user"))
              || negb (truthy (get (lookup f (json first)) "password")));
      reflexivity.
  - cbn [outcome events final]. left.
    destruct (snd (storedCredentials env)); reflexivity.
Qed.

(** The parameters read by an execution: those of the resolution, then
    those of the guarded block. *)
Lemma execute_parameter_reads (W : Type) (env : Env W) (w : W) :
  exists tail,
    parameter_reads (events (execute env w))
    = parameter_reads (events (resolveCredentials env w)) ++ tail /\
    (tail = [] \/ tail = [("resource", 0)] \/
     (tail = [("resource", 0); ("operation", 0)] /\
      exists resource, getNodeParameter env "resource" 0 = Ok resource)).
Proof.
  execute_paths env w; autorewrite with trace;
    try rewrite (loop_no_parameter _ Hloop); simpl.
  - exists [("resource", 0); ("operation", 0)]. split; [reflexivity|].
    right. right. split; [reflexivity|]. exists resource. exact Hresource.
  - exists [("resource", 0); ("operation", 0)]. split; [reflexivity|].
    right. right. split; [reflexivity|]. exists resource. exact Hresource.
  - exists [("resource", 0); ("operation", 0)]. split; [reflexivity|].
    right. right. split; [reflexivity|]. exists resource. exact Hresource.
  - exists [("resource", 0); ("operation", 0)]. split; [reflexivity|].
    right. right. split; [reflexivity|]. exists resource. exact Hresource.
  - exists [("resource", 0)]. split; [reflexivity|]. right. left. reflexivity.
  - exists []. split; [reflexivity|]. left. reflexivity.
  - exists []. split; [reflexivity|]. left. reflexivity.
  - exists []. split; [rewrite app_nil_r; reflexivity|]. left. reflexivity.
Qed.

Ltac not_among :=
  let H := fresh in
  simpl; intros H;
  repeat (destruct H as [H|H]; [discriminate H|]);
  exact H.

Ltac among_parameters :=
  let H := fresh in
  intros ? ? H; simpl in H;
  repeat (destruct H as [H|H];
          [inversion H; subst; split; [reflexivity|];
           first [left; reflexivity
                 |right; left; reflexivity
                 |right; right; left; reflexivity
                 |right; right; right; reflexivity]|]);
  contradiction H.

(** X19: [execute] itself reads at most four node parameters, each at most
    once and at item index 0: ['authentication'] first, ['credentialsField']
    only under ['fromInput'] authentication with at least one input item,
    then ['resource'] and ['operation'], the latter only when ['resource']
    could be read. *)
Theorem parameters_read (W : Type) (env : Env W) (w : W) :
  let reads := parameter_reads (events (execute env w)) in
  NoDup reads
  /\ (exists rest, reads = ("authentication", 0) :: rest)
  /\ (forall name i, In (name, i) reads ->
        i = 0 /\
        (name = "authentication" \/ name = "credentialsField" \/
         name = "resource" \/ name = "operation"))
  /\ (In ("credentialsField", 0) reads ->
        getNodeParameter env "authentication" 0 = Ok CREDENTIALS_TYPE_FROM_INPUT /\
        getInputData env <> [])
  /\ (In ("operation", 0) reads ->
        exists resource, getNodeParameter env "resource" 0 = Ok resource).
Proof.
  intros reads. subst reads.
  destruct (execute_parameter_reads W env w) as [tail [-> Htail]].
  destruct (resolve_parameter_reads W env w) as [->|[-> [Hauth Hitems]]];
    destruct Htail as [->|[->|[-> Hresource]]]; cbn [app].
  - split; [repeat constructor; not_among|].
    split; [eexists; reflexivity|]. split; [among_parameters|].
    split; intros H; exfalso; revert H; not_among.
  - split; [repeat constructor; not_among|].
    split; [eexists; reflexivity|]. split; [among_parameters|].
    split; intros H; exfalso; revert H; not_among.
  - split; [repeat constructor; not_among|].
    split; [eexists; reflexivity|]. split; [among_parameters|].
    split; [intros H; exfalso; revert H; not_among|].
    intros _. exact Hresource.
  - split; [repeat constructor; not_among|].
    split; [eexists; reflexivity|]. split; [among_parameters|].
    split; [intros _; split; assumption|].
    intros H; exfalso; revert H; not_among.
  - split; [repeat constructor; not_among|].
    split; [eexists; reflexivity|]. split; [among_parameters|].
    split; [intros _; split; assumption|].
    intros H; exfalso; revert H; not_among.
  - split; [repeat constructor; not_among|].
    split; [eexists; reflexivity|]. split; [among_parameters|].
    split; [intros _; split; assumption|].
    intros _. exact Hresource.
Qed.

Lemma parameters_read_witness :
  In ("credentialsField", 0) (parameter_reads (events (execute env_list 0))) /\
  getNodeParameter env_list "authentication" 0 = Ok CREDENTIALS_TYPE_FROM_INPUT /\
  getInputData env_list <> [].
Proof.
  assert (H : In ("credentialsField", 0)
                 (parameter_reads (events (execute env_list 0)))).
  { vm_compute. right. left. reflexivity. }
  split; [exact H|].
  exact (proj1 (proj2 (proj2 (proj2 (parameters_read nat env_list 0)))) H).
Defined.
